(** * PAGE consistency validation ([ocrd_validators/page_validator.py])

    A shallow embedding of [validate_consistency], [concatenate],
    [get_text], [set_text], [compare_without_whitespace] and
    [PageValidator.validate], together with the properties of the
    validator that the specification states.

    Python objects are references: the element tree is traversed through
    its links, which the validator only reads, while the [TextEquiv] lists
    hanging off the elements are mutated in place by [set_text].  The
    embedding therefore keeps the tree as an immutable value whose nodes
    carry the identity of their Python object ([addr]), and threads a store
    from object identities to [TextEquiv] lists through a state monad
    that also carries the [ValidationReport].  Exceptions end a
    computation and leave the state as it is at that point.  Calls of the
    logger are left out. *)

From Stdlib Require Import ZArith String Ascii List Bool Lia.
From stdpp Require Import base option list gmap strings.
Import ListNotations.
Local Open Scope string_scope.
Local Open Scope Z_scope.

(** ** Python strings

    A Python [str] is a sequence of code points; the embedding uses Rocq
    strings whose characters stand for the code points 0..255. *)

Module PyStr.

(** [str.isspace] on one code point below 256; [re]'s [\s] on [str]
    patterns accepts the same set. *)
Definition isspace (c : ascii) : bool :=
  let n := N_of_ascii c in
  (((9 <=? n) && (n <=? 13)) || ((28 <=? n) && (n <=? 32))
   || (n =? 133) || (n =? 160))%N.

Fixpoint lstrip (s : string) : string :=
  match s with
  | EmptyString => EmptyString
  | String c s' => if isspace c then lstrip s' else s
  end.

(** Dropping trailing white space, right to left: a character is kept
    when it is not white space or when something is kept after it. *)
Fixpoint rstrip (s : string) : string :=
  match s with
  | EmptyString => EmptyString
  | String c s' =>
      match rstrip s' with
      | EmptyString => if isspace c then EmptyString else String c EmptyString
      | r => String c r
      end
  end.

(** [s.strip()] *)
Definition strip (s : string) : string := rstrip (lstrip s).

(** [re.sub('\\s+', '', s)]: every maximal run of white space is replaced
    by the empty string, which deletes exactly the white-space
    characters. *)
Fixpoint remove_whitespace (s : string) : string :=
  match s with
  | EmptyString => EmptyString
  | String c s' =>
      if isspace c then remove_whitespace s' else String c (remove_whitespace s')
  end.

(** [sep.join(tokens)] *)
Fixpoint join (sep : string) (tokens : list string) : string :=
  match tokens with
  | [] => EmptyString
  | [t] => t
  | t :: ts => t ++ sep ++ join sep ts
  end.

(** [a in b] for two strings: [a] occurs in [b] as a substring. *)
Fixpoint contains (b a : string) : bool :=
  String.prefix a b ||
  match b with
  | EmptyString => false
  | String _ b' => contains b' a
  end.

(** Truth value of a string: non-empty. *)
Definition truthy (s : string) : bool :=
  match s with EmptyString => false | _ => true end.

Definition eqb (a b : string) : bool := bool_decide (a = b).

End PyStr.

(** ** The element tree *)

(** The generated PAGE classes the validator tests with [isinstance].
    Every [*RegionType] derives from [RegionType]. *)
Inductive Class :=
| PageType | RegionType
| AdvertRegionType | ChartRegionType | ChemRegionType | GraphicRegionType
| LineDrawingRegionType | MathsRegionType | MusicRegionType | NoiseRegionType
| SeparatorRegionType | TableRegionType | TextRegionType | UnknownRegionType
| TextLineType | WordType | GlyphType.

#[global] Instance Class_eq_dec : EqDecision Class.
Proof. solve_decision. Defined.

Definition is_region_class (c : Class) : bool :=
  match c with
  | RegionType
  | AdvertRegionType | ChartRegionType | ChemRegionType | GraphicRegionType
  | LineDrawingRegionType | MathsRegionType | MusicRegionType | NoiseRegionType
  | SeparatorRegionType | TableRegionType | TextRegionType | UnknownRegionType => true
  | _ => false
  end.

(** [issubclass(c, k)] *)
Definition subclass (c k : Class) : bool :=
  bool_decide (c = k) || (bool_decide (k = RegionType) && is_region_class c).

(** The accessor names that occur in [_HIERARCHY]. *)
Inductive Getter :=
| get_AdvertRegion | get_ChartRegion | get_ChemRegion | get_GraphicRegion
| get_LineDrawingRegion | get_MathsRegion | get_MusicRegion | get_NoiseRegion
| get_SeparatorRegion | get_TableRegion | get_TextRegion | get_UnknownRegion
| get_TextLine | get_Word | get_Glyph.

#[global] Instance Getter_eq_dec : EqDecision Getter.
Proof. solve_decision. Defined.

(** The class of the elements an accessor returns. *)
Definition getter_class (g : Getter) : Class :=
  match g with
  | get_AdvertRegion => AdvertRegionType | get_ChartRegion => ChartRegionType
  | get_ChemRegion => ChemRegionType | get_GraphicRegion => GraphicRegionType
  | get_LineDrawingRegion => LineDrawingRegionType
  | get_MathsRegion => MathsRegionType | get_MusicRegion => MusicRegionType
  | get_NoiseRegion => NoiseRegionType
  | get_SeparatorRegion => SeparatorRegionType
  | get_TableRegion => TableRegionType | get_TextRegion => TextRegionType
  | get_UnknownRegion => UnknownRegionType
  | get_TextLine => TextLineType | get_Word => WordType | get_Glyph => GlyphType
  end.

(** [original_tagname_] of a parsed element. *)
Definition tagname (c : Class) : string :=
  match c with
  | PageType => "Page" | RegionType => "Region"
  | AdvertRegionType => "AdvertRegion" | ChartRegionType => "ChartRegion"
  | ChemRegionType => "ChemRegion" | GraphicRegionType => "GraphicRegion"
  | LineDrawingRegionType => "LineDrawingRegion"
  | MathsRegionType => "MathsRegion" | MusicRegionType => "MusicRegion"
  | NoiseRegionType => "NoiseRegion" | SeparatorRegionType => "SeparatorRegion"
  | TableRegionType => "TableRegion" | TextRegionType => "TextRegion"
  | UnknownRegionType => "UnknownRegion"
  | TextLineType => "TextLine" | WordType => "Word" | GlyphType => "Glyph"
  end.

(** The [points] attribute of [Coords] and [Baseline], already split into
    coordinate pairs (what [polygon_from_points] returns). *)
Definition points : Type := list (Z * Z).

(** Identity of a Python object. *)
Definition addr : Type := nat.

(** One element object.  The attributes are those the validator reads;
    an attribute a class does not use is left at [None] or [[]].
    - [get_Coords]: the [points] of the [Coords] child, [None] when
      [get_Coords()] returns [None];
    - [get_Border]: for a page, [Some c] when it has a [Border], [c]
      being the [Border]'s own [Coords] points;
    - [get_Baseline]: for a text line, the [points] of its [Baseline];
    - [node_children]: the elements reachable through the accessors, each
      accessor returning those of its class, in insertion order. *)
#[local] Set Warnings "-register-all".
Inductive Node := mkNode {
  node_class : Class;
  node_obj : addr;
  get_id : string;
  get_Coords : option points;
  get_Border : option (option points);
  get_Baseline : option points;
  node_children : list Node
}.

(** [isinstance(node, class_)] *)
Definition isinstance (node : Node) (class_ : Class) : bool :=
  subclass (node_class node) class_.

(** [getattr(node, getter)()] *)
Definition getattr (node : Node) (getter : Getter) : list Node :=
  List.filter (fun c => bool_decide (node_class c = getter_class getter))
              (node_children node).

(** The root object [PcGtsType]. *)
Record PcGtsType := {
  get_pcGtsId : string;
  get_Page : Node
}.

(** What [validate_consistency] may be called with. *)
Inductive PyNode :=
| PcGts (p : PcGtsType)
| Element (n : Node).

(** One [TextEquiv]: its [index] attribute and its [Unicode] content.
    The PAGE schema requires the [Unicode] element, and the store holds
    such entries only: on a [TextEquiv] without it [get_Unicode()] is
    [None] and [get_text] raises an [AttributeError] at [.strip()]
    (lines 256-257); that input is outside this model, and nothing
    below states that [get_text] or a text check returns on it. *)
Record TextEquivType := {
  index : option Z;
  get_Unicode : string
}.

#[global] Instance TextEquivType_eq_dec : EqDecision TextEquivType.
Proof. solve_decision. Defined.

(** ** The hierarchy table *)

(** The string made of a line feed. *)
Definition newline : string := String (ascii_of_nat 10) EmptyString.

Definition _HIERARCHY : list (Class * option Getter * option string) :=
  [ (PageType, Some get_AdvertRegion, None);
    (PageType, Some get_ChartRegion, None);
    (PageType, Some get_ChemRegion, None);
    (PageType, Some get_GraphicRegion, None);
    (PageType, Some get_GraphicRegion, None);
    (PageType, Some get_LineDrawingRegion, None);
    (PageType, Some get_MathsRegion, None);
    (PageType, Some get_MusicRegion, None);
    (PageType, Some get_NoiseRegion, None);
    (PageType, Some get_SeparatorRegion, None);
    (PageType, Some get_TableRegion, None);
    (PageType, Some get_TextRegion, None);
    (PageType, Some get_UnknownRegion, None);
    (RegionType, Some get_AdvertRegion, None);
    (RegionType, Some get_ChartRegion, None);
    (RegionType, Some get_ChemRegion, None);
    (RegionType, Some get_GraphicRegion, None);
    (RegionType, Some get_GraphicRegion, None);
    (RegionType, Some get_LineDrawingRegion, None);
    (RegionType, Some get_MathsRegion, None);
    (RegionType, Some get_MusicRegion, None);
    (RegionType, Some get_NoiseRegion, None);
    (RegionType, Some get_SeparatorRegion, None);
    (RegionType, Some get_TableRegion, None);
    (RegionType, Some get_TextRegion, None);
    (RegionType, Some get_UnknownRegion, None);
    (TextRegionType, Some get_TextLine, Some newline);
    (TextLineType, Some get_Word, Some " ");
    (WordType, Some get_Glyph, Some "");
    (GlyphType, None, None) ].

(** ** Errors, exceptions and the report *)

Inductive Error :=
| ConsistencyError (tag ID actual expected : string)
| CoordinateConsistencyError (tag ID : string) (outer inner : points)
| CoordinateValidityError (tag ID : string) (pts : points).

#[global] Instance Error_eq_dec : EqDecision Error.
Proof. solve_decision. Defined.

(** The exceptions that can leave the validator.  [ValueError] is what a
    geometry constructor raises; [ConfigError] is the plain [Exception]
    raised by [PageValidator.validate]. *)
Inductive Exn :=
| AttributeError
| TypeError
| ValueError
| ConfigError (msg : string).

#[global] Instance Exn_eq_dec : EqDecision Exn.
Proof. solve_decision. Defined.

(** ** The geometry library

    [shapely] is not part of the repository.  The validator is embedded
    over an arbitrary implementation of the operations it calls:
    - [Polygon] and [LineString] build a geometry from coordinate pairs
      and may raise ([None]);
    - [is_valid], [is_empty], [bounds], [length] and [within] are the
      attributes and the predicate of the same names;
    - [truth] is the truth value of a geometry object, as tested by
      [if ... and node_poly];
    - numbers are of a type [num], compared with an integer literal by
      [num_lt]. *)
Record Shapely := {
  geom : Type;
  num : Type;
  num_lt : num -> Z -> bool;
  Polygon : points -> option geom;
  LineString : points -> option geom;
  is_valid : geom -> bool;
  is_empty : geom -> bool;
  bounds : geom -> num * num * num * num;
  length : geom -> num;
  within : geom -> geom -> bool;
  truth : geom -> bool
}.

(** ** State and exceptions *)

(** What a run can change or record:
    - [st_text]: the [TextEquiv] list of every element object (an object
      without entry has none);
    - [st_report]: the errors added to the [ValidationReport], oldest
      first;
    - [st_within]: a ghost record of the evaluations of [within], as pairs
      of the inner and the outer points, oldest first. *)
Record State := mkState {
  st_text : gmap addr (list TextEquivType);
  st_report : list Error;
  st_within : list (points * points)
}.

Inductive Result (A : Type) :=
| Ok (a : A)
| Raise (e : Exn).
Arguments Ok {A} a.
Arguments Raise {A} e.

(** A computation: a result or an exception, and the state it leaves. *)
Definition M (A : Type) : Type := State -> Result A * State.

Definition ret {A} (a : A) : M A := fun s => (Ok a, s).

Definition bind {A B} (c : M A) (k : A -> M B) : M B :=
  fun s =>
    match c s with
    | (Ok a, s') => k a s'
    | (Raise e, s') => (Raise e, s')
    end.

Definition raise {A} (e : Exn) : M A := fun s => (Raise e, s).

Declare Scope py_scope.
Delimit Scope py_scope with py.
Notation "x <- c ;; k" := (bind c (fun x => k))
  (at level 100, c at next level, right associativity) : py_scope.
Notation "c ;;; k" := (bind c (fun _ => k))
  (at level 100, right associativity) : py_scope.
Local Open Scope py_scope.

(** [node.get_TextEquiv()] *)
Definition get_TextEquiv (node : Node) : M (list TextEquivType) :=
  fun s => (Ok (default [] (st_text s !! node_obj node)), s).

(** Replacing the [TextEquiv] list of an object. *)
Definition put_TextEquiv (node : Node) (l : list TextEquivType) : M unit :=
  fun s => (Ok tt, mkState (<[node_obj node := l]> (st_text s))
                           (st_report s) (st_within s)).

(** Modelled from the spec: [ValidationReport.add_error] of [report.py],
    an append to the ordered collection of error records. *)
Definition add_error (e : Error) : M unit :=
  fun s => (Ok tt, mkState (st_text s) (st_report s ++ [e]) (st_within s)).

(** Ghost: one evaluation of [inner.within(outer)] is recorded. *)
Definition note_within (inner outer : points) : M unit :=
  fun s => (Ok tt, mkState (st_text s) (st_report s)
                           (st_within s ++ [(inner, outer)])).

(** [obj.points] on the result of [get_Coords()]: an [AttributeError]
    when that result is [None]. *)
Definition points_of (c : option points) : M points :=
  match c with
  | Some p => ret p
  | None => raise AttributeError
  end.

(** A geometry constructor applied to points. *)
Definition construct {G} (ctor : points -> option G) (p : points) : M G :=
  match ctor p with
  | Some g => ret g
  | None => raise ValueError
  end.

(** ** Text selection *)

(** [compare_without_whitespace] *)
Definition compare_without_whitespace (a b : string) : bool :=
  PyStr.eqb (PyStr.remove_whitespace a) (PyStr.remove_whitespace b).

(** [[x for x in textEquivs if x.index == 1]] *)
Definition index1 (textEquivs : list TextEquivType) : list TextEquivType :=
  List.filter (fun x => bool_decide (index x = Some 1)) textEquivs.

(** The text selected from a list of [TextEquiv]s, the body of
    [get_text]. *)
Definition select_text (textEquivs : list TextEquivType) : string :=
  match textEquivs with
  | [] => ""
  | first :: _ =>
      if (1 <? Z.of_nat (List.length textEquivs)) then
        match index1 textEquivs with
        | x :: _ => PyStr.strip (get_Unicode x)
        | [] => PyStr.strip (get_Unicode first)
        end
      else PyStr.strip (get_Unicode first)
  end.

(** [get_text] (the [strategy] is not looked at) *)
Definition get_text (node : Node) (strategy : string) : M string :=
  textEquivs <- get_TextEquiv node ;;
  ret (select_text textEquivs).

(** [index1[0].set_Unicode(text)]: the first entry with [index == 1]
    gets the text. *)
Fixpoint set_first_index1 (text : string) (l : list TextEquivType)
  : list TextEquivType :=
  match l with
  | [] => []
  | x :: l' =>
      if bool_decide (index x = Some 1)
      then {| index := index x; get_Unicode := text |} :: l'
      else x :: set_first_index1 text l'
  end.

(** The [TextEquiv] list after [set_text], from the list before. *)
Definition store_text (text : string) (textEquivs : list TextEquivType)
  : list TextEquivType :=
  match textEquivs with
  | [] => [ {| index := None; get_Unicode := text |} ]
  | first :: rest =>
      if (1 <? Z.of_nat (List.length textEquivs)) && negb (bool_decide (index1 textEquivs = []))
      then set_first_index1 text textEquivs
      else {| index := index first; get_Unicode := text |} :: rest
  end.

(** [set_text] *)
Definition set_text (node : Node) (text : string) (strategy : string) : M unit :=
  let text := PyStr.strip text in
  textEquivs <- get_TextEquiv node ;;
  put_TextEquiv node (store_text text textEquivs).

(** Running a computation over a list, left to right. *)
Definition mapM {A B} (f : A -> M B) : list A -> M (list B) :=
  fix go (l : list A) : M (list B) :=
    match l with
    | [] => ret []
    | a :: l' => b <- f a ;; bs <- go l' ;; ret (b :: bs)
    end.

(** [concatenate] *)
Definition concatenate (nodes : list Node) (concatenate_with : string)
    (strategy : string) : M string :=
  tokens <- mapM (fun node => get_text node strategy) nodes ;;
  ret (PyStr.strip (PyStr.join concatenate_with tokens)).

(** ** The validator *)

Section Validator.

Context (K : Shapely).

(** The five-fold test the source writes out for the element's own
    polygon, for a child's polygon and for the baseline. *)
Definition invalid (g : geom K) : bool :=
  let '(minx, miny, _, _) := bounds K g in
  negb (is_valid K g)
  || is_empty K g
  || num_lt K minx 0
  || num_lt K miny 0
  || num_lt K (length K g) 4.

Context (strictness strategy : string) (check_baseline check_coords : bool).

(** Lines 156-173: the element's own polygon. *)
Definition check_own (node : Node) (tag node_id : string)
  : M (option (points * geom K) * bool) :=
  if check_coords || check_baseline then
    let parent :=
      if isinstance node PageType then get_Border node
      else Some (get_Coords node) in
    match parent with
    | Some coords =>
        parent_points <- points_of coords ;;
        node_poly <- construct (Polygon K) parent_points ;;
        if invalid node_poly then
          add_error (CoordinateValidityError tag node_id parent_points) ;;;
          ret (Some (parent_points, node_poly), false)
        else ret (Some (parent_points, node_poly), true)
    | None => ret (None, true)
    end
  else ret (None, true).

(** Lines 183-201: one child against the element's polygon.  The
    variable [node_poly] is paired with [parent_points], bound together
    with it; its truth value is that of the geometry, [None] being
    false. *)
Definition check_child (tag : string) (node_poly : option (points * geom K))
    (child : Node) (consistent : bool) : M bool :=
  match node_poly with
  | Some (parent_points, outer) =>
      if check_coords && truth K outer then
        let child_tag := tagname (node_class child) in
        child_points <- points_of (get_Coords child) ;;
        child_poly <- construct (Polygon K) child_points ;;
        if invalid child_poly then
          add_error (CoordinateValidityError child_tag (get_id child) child_points) ;;;
          ret false
        else
          note_within child_points parent_points ;;;
          if negb (within K child_poly outer) then
            add_error (CoordinateConsistencyError tag (get_id child)
                                                  parent_points child_points) ;;;
            ret false
          else ret consistent
      else ret consistent
  | None => ret consistent
  end.

(** Lines 202-218: the baseline of a text line.  [node_poly] is bound
    here, because [check_baseline] holds and a text line is its own
    [parent]; were it [None], [within] would raise. *)
Definition check_baseline_of (node : Node) (tag node_id : string)
    (node_poly : option (points * geom K)) (consistent : bool) : M bool :=
  match get_Baseline node with
  | Some baseline_points =>
      if isinstance node TextLineType && check_baseline then
        baseline_line <- construct (LineString K) baseline_points ;;
        if invalid baseline_line then
          add_error (CoordinateValidityError "Baseline" node_id baseline_points) ;;;
          ret false
        else
          match node_poly with
          | Some (parent_points, outer) =>
              note_within baseline_points parent_points ;;;
              if negb (within K baseline_line outer) then
                add_error (CoordinateConsistencyError "Baseline" node_id
                                                      parent_points baseline_points) ;;;
                ret false
              else ret consistent
          | None => raise TypeError
          end
      else ret consistent
  | None => ret consistent
  end.

(** Lines 219-233: the text of the element against its children's. *)
Definition check_text (node : Node) (tag node_id : string)
    (children : list Node) (concatenate_with : option string)
    (consistent : bool) : M bool :=
  match concatenate_with with
  | Some delimiter =>
      if negb (PyStr.eqb strictness "off") then
        concatenated <- concatenate children delimiter strategy ;;
        text_results <- get_text node strategy ;;
        if PyStr.truthy concatenated && PyStr.truthy text_results
           && negb (PyStr.eqb concatenated text_results) then
          (if PyStr.eqb strictness "fix" then
             set_text node concatenated strategy
           else if PyStr.eqb strictness "strict"
                   || negb (compare_without_whitespace concatenated text_results) then
             add_error (ConsistencyError tag node_id text_results concatenated)
           else ret tt) ;;;
          ret false
        else ret consistent
      else ret consistent
  | None => ret consistent
  end.

(** [for child in children: ...], the children being those elements of
    [all] the accessor returns; [visit] is the recursive call. *)
Definition for_children (visit : Node -> M bool) (getter : Getter)
    (tag : string) (node_poly : option (points * geom K))
  : list Node -> bool -> M bool :=
  fix loop (all : list Node) (consistent : bool) : M bool :=
    match all with
    | [] => ret consistent
    | child :: rest =>
        if bool_decide (node_class child = getter_class getter) then
          r <- visit child ;;
          consistent <- check_child tag node_poly child (r && consistent) ;;
          loop rest consistent
        else loop rest consistent
    end.

(** [for class_, getter, concatenate_with in _HIERARCHY: ...] *)
Definition for_hierarchy (body : Class * option Getter * option string -> bool -> M bool)
  : list (Class * option Getter * option string) -> bool -> M bool :=
  fix loop (table : list (Class * option Getter * option string))
      (consistent : bool) : M bool :=
    match table with
    | [] => ret consistent
    | entry :: rest => consistent <- body entry consistent ;; loop rest consistent
    end.

(** Lines 144-152: what is done with the argument before the body. *)
Definition enter (body : string -> Node -> M bool) (node : PyNode) : M bool :=
  match node with
  | PcGts p => body (get_pcGtsId p) (get_Page p)
  | Element n =>
      if isinstance n GlyphType then ret true
      else if isinstance n PageType then raise AttributeError
      else body (get_id n) n
  end.

(** Lines 153-234, for an element [node] with [node_id] bound. *)
Fixpoint validate_body (node_id : string) (node : Node) {struct node} : M bool :=
  let tag := tagname (node_class node) in
  own <- check_own node tag node_id ;;
  let '(node_poly, consistent) := own in
  for_hierarchy
    (fun '(class_, getter, concatenate_with) consistent =>
       if negb (isinstance node class_) then ret consistent
       else
         match getter with
         | None => raise TypeError
         | Some getter =>
             consistent <-
               for_children (fun child => enter validate_body (Element child))
                            getter tag node_poly (node_children node) consistent ;;
             consistent <- check_baseline_of node tag node_id node_poly consistent ;;
             check_text node tag node_id (getattr node getter)
                        concatenate_with consistent
         end)
    _HIERARCHY consistent.

(** [validate_consistency] *)
Definition validate_consistency (node : PyNode) : M bool :=
  enter validate_body node.

End Validator.

(** ** The entry point *)

Section PageValidator.

Context (K : Shapely).

(** [page_from_file] and [parse] belong to other packages: they are
    taken as given, each returning the parsed root or raising. *)
Context {OcrdFile : Type}.
Context (page_from_file : OcrdFile -> Result PcGtsType).
Context (parse : string -> Result PcGtsType).

Definition lift {A} (r : Result A) : M A := fun s => (r, s).

(** [report = ValidationReport()] *)
Definition new_report : M unit :=
  fun s => (Ok tt, mkState (st_text s) [] (st_within s)).

(** [return report] *)
Definition the_report : M (list Error) :=
  fun s => (Ok (st_report s), s).

(** [PageValidator.validate].  [strategy not in ('index1')] tests
    against a parenthesised string, that is, for a substring of
    ["index1"]; [strictness not in (...)] tests against a tuple. *)
Definition validate (filename : option string) (ocrd_page : option PcGtsType)
    (ocrd_file : option OcrdFile) (strictness strategy : string)
    (check_baseline check_coords : bool) : M (list Error) :=
  page <-
    match ocrd_page, ocrd_file, filename with
    | Some ocrd_page, _, _ => ret ocrd_page
    | None, Some ocrd_file, _ => lift (page_from_file ocrd_file)
    | None, None, Some filename =>
        if PyStr.truthy filename then lift (parse filename)
        else raise (ConfigError "At least one of ocrd_page, ocrd_file or filename must be set")
    | None, None, None =>
        raise (ConfigError "At least one of ocrd_page, ocrd_file or filename must be set")
    end ;;
  if negb (PyStr.contains "index1" strategy) then
    raise (ConfigError ("Element selection strategy " ++ strategy ++ " not implemented"))
  else if negb (bool_decide (strictness ∈ ["strict"; "lax"; "fix"; "off"])) then
    raise (ConfigError ("Strictness level " ++ strictness ++ " not implemented"))
  else
    new_report ;;;
    validate_consistency K strictness strategy check_baseline check_coords
                         (PcGts page) ;;;
    the_report.

End PageValidator.

(** ** A geometry for axis-parallel rectangles

    An instance of the geometry operations, exact on the shapes it
    accepts as valid: a polygon given by the four corners of an
    axis-parallel rectangle, counter-clockwise from the lower left one,
    and a line string given by the two ends of a horizontal or vertical
    segment.  The constructors raise below three (polygon) or two (line
    string) coordinate pairs, as the library's do; every other sequence
    is built and reported as not [is_valid].  All numbers are integers. *)
Module Rect.

Inductive shape :=
| Box (x0 y0 x1 y1 : Z)
| Segment (x0 y0 x1 y1 : Z)
| Other (pts : points).

Definition polygon (pts : points) : option shape :=
  match pts with
  | [] | [_] | [_; _] => None
  | [(a, b); (c, d); (e, f); (g, h)] =>
      if (a =? g) && (c =? e) && (b =? d) && (f =? h) && (a <? c) && (b <? f)
      then Some (Box a b c f) else Some (Other pts)
  | _ => Some (Other pts)
  end.

Definition line_string (pts : points) : option shape :=
  match pts with
  | [] | [_] => None
  | [(a, b); (c, d)] =>
      if ((a =? c) || (b =? d)) && negb ((a =? c) && (b =? d))
      then Some (Segment (Z.min a c) (Z.min b d) (Z.max a c) (Z.max b d))
      else Some (Other pts)
  | _ => Some (Other pts)
  end.

Definition valid (g : shape) : bool :=
  match g with Other _ => false | _ => true end.

Definition empty (g : shape) : bool := false.

Definition bbox (g : shape) : Z * Z * Z * Z :=
  match g with
  | Box x0 y0 x1 y1 | Segment x0 y0 x1 y1 => (x0, y0, x1, y1)
  | Other pts =>
      (foldr Z.min 0 (map fst pts), foldr Z.min 0 (map snd pts),
       foldr Z.max 0 (map fst pts), foldr Z.max 0 (map snd pts))
  end.

Definition perimeter (g : shape) : Z :=
  match g with
  | Box x0 y0 x1 y1 => 2 * ((x1 - x0) + (y1 - y0))
  | Segment x0 y0 x1 y1 => (x1 - x0) + (y1 - y0)
  | Other _ => 0
  end.

(** [inner.within(outer)]: no point of [inner] outside [outer], and the
    interiors meet.  A segment lying in an edge of a box is not within
    it. *)
Definition inside (inner outer : shape) : bool :=
  match inner, outer with
  | Box a b c d, Box x0 y0 x1 y1 =>
      (x0 <=? a) && (y0 <=? b) && (c <=? x1) && (d <=? y1)
  | Segment a b c d, Box x0 y0 x1 y1 =>
      (x0 <=? a) && (y0 <=? b) && (c <=? x1) && (d <=? y1)
      && negb ((a =? c) && ((a =? x0) || (a =? x1)))
      && negb ((b =? d) && ((b =? y0) || (b =? y1)))
  | _, _ => false
  end.

Definition kernel : Shapely := {|
  geom := shape;
  num := Z;
  num_lt := Z.ltb;
  Polygon := polygon;
  LineString := line_string;
  is_valid := valid;
  is_empty := empty;
  bounds := bbox;
  length := perimeter;
  within := inside;
  truth := fun g => negb (empty g)
|}.

End Rect.

(** * Vocabulary of the properties *)

Local Open Scope list_scope.

(** ** Texts and effects as functions of the state *)

(** The [TextEquiv] list of an element in a state, and the text selected
    from it. *)
Definition texts_of (s : State) (node : Node) : list TextEquivType :=
  default [] (st_text s !! node_obj node).

Definition text_of (s : State) (node : Node) : string :=
  select_text (texts_of s node).

(** The concatenation [concatenate] computes, as a function of the
    state. *)
Definition concatenated_of (s : State) (children : list Node)
    (concatenate_with : string) : string :=
  PyStr.strip (PyStr.join concatenate_with (map (text_of s) children)).

(** The state after [set_text]. *)
Definition with_text (s : State) (node : Node) (text : string) : State :=
  mkState (<[node_obj node := store_text (PyStr.strip text) (texts_of s node)]> (st_text s))
          (st_report s) (st_within s).

(** The state after [add_error]. *)
Definition with_error (s : State) (e : Error) : State :=
  mkState (st_text s) (st_report s ++ [e]) (st_within s).

(** Whether the text check finds a mismatch in a state. *)
Definition mismatch (s : State) (node : Node) (children : list Node)
    (concatenate_with : string) : bool :=
  let concatenated := concatenated_of s children concatenate_with in
  let text_results := text_of s node in
  PyStr.truthy concatenated && PyStr.truthy text_results
  && negb (PyStr.eqb concatenated text_results).

(** The state after one more evaluation of [within]. *)
Definition with_within (s : State) (inner outer : points) : State :=
  mkState (st_text s) (st_report s) (st_within s ++ [(inner, outer)]).

(** Text consistency errors, as opposed to the two coordinate errors. *)
Definition is_text_error (e : Error) : bool :=
  match e with ConsistencyError _ _ _ _ => true | _ => false end.

(** ** Relations between the states around a run *)

(** The conditions under which [within] is evaluated: a child polygon
    against the polygon of its parent, or a baseline against the polygon
    of its line. *)
Definition within_child (K : Shapely) (cc : bool) (inner outer : points) : Prop :=
  exists o g, Polygon K outer = Some o /\ truth K o = true /\ cc = true
              /\ Polygon K inner = Some g /\ invalid K g = false.

Definition within_baseline (K : Shapely) (cb : bool) (inner outer : points) : Prop :=
  exists o g, Polygon K outer = Some o /\ cb = true
              /\ LineString K inner = Some g /\ invalid K g = false.

(** A computation relates the states around it by [R] and, when it
    returns, returns a value in [Q]. *)
Definition triple (R : State -> State -> Prop) {A} (c : M A) (Q : A -> Prop) : Prop :=
  forall s, R s (c s).2 /\ match (c s).1 with Ok a => Q a | Raise _ => True end.

(** What is known of [node_poly] once [check_own] has returned. *)
Definition poly_built (K : Shapely) (node_poly : option (points * geom K)) : Prop :=
  match node_poly with
  | Some (parent_points, g) => Polygon K parent_points = Some g
  | None => True
  end.

(** The report is only appended to. *)
Definition report_grows (s s' : State) : Prop :=
  exists es, st_report s' = st_report s ++ es.

(** The [TextEquiv] list of an object. *)
Definition texts_at (s : State) (a : addr) : list TextEquivType :=
  default [] (st_text s !! a).

(** Between two states, the texts are the same under every strictness
    but ['fix'], and in any case each object either keeps its [TextEquiv]
    list or, having had a non-empty one, has had its selected entry
    overwritten. *)
Definition only_canonical_text (strictness : string) (s s' : State) : Prop :=
  (strictness <> "fix" -> st_text s' = st_text s) /\
  forall a, texts_at s' a = texts_at s a
            \/ (texts_at s a <> [] /\ exists t, texts_at s' a = store_text t (texts_at s a)).

(** The text consistency errors of a report, in order. *)
Definition text_errors (report : list Error) : list Error :=
  List.filter is_text_error report.

Definition same_text_errors (s s' : State) : Prop :=
  text_errors (st_report s') = text_errors (st_report s).



(** ** Trees and settled elements *)

(** All elements of a tree, parents first, and the objects they are. *)
Fixpoint nodes (n : Node) : list Node :=
  n :: flat_map nodes (node_children n).

Definition objs (n : Node) : list addr := node_obj <$> nodes n.

(** No text check of the element finds a mismatch. *)
Definition settled_here (s : State) (node : Node) : Prop :=
  forall class_ getter d,
    (class_, Some getter, Some d) ∈ _HIERARCHY ->
    isinstance node class_ = true ->
    mismatch s node (getattr node getter) d = false.

(** ... nor does any in the tree below it. *)
Inductive settled (s : State) : Node -> Prop :=
| settled_node n :
    settled_here s n ->
    (forall c, c ∈ node_children n -> settled s c) ->
    settled s n.

(** A run over a settled tree changes no text and reports no text
    error, whatever the strictness, the flags and the geometry. *)
Definition text_untouched (root : Node) (s s' : State) : Prop :=
  settled s root -> st_text s' = st_text s /\ same_text_errors s s'.

(** The texts are the same in both states. *)
Definition same_text (s s' : State) : Prop := st_text s' = st_text s.

(** Settled elements of the tree under [root] stay settled. *)
Definition stays_settled (root : Node) (s s' : State) : Prop :=
  forall m, m ∈ nodes root -> settled s m -> settled s' m.

(** A string without leading white space. *)
Definition lstripped (s : string) : Prop :=
  match s with
  | EmptyString => True
  | String c _ => PyStr.isspace c = false
  end.

(** Whether an entry of the table makes the validator visit [c] as a
    child of [n]. *)
Definition entry_visits (n c : Node) (entry : Class * option Getter * option string)
  : bool :=
  let '(class_, getter, _) := entry in
  isinstance n class_
  && match getter with
     | Some g => bool_decide (node_class c = getter_class g)
     | None => false
     end.

(** Whether the validator visits [c] as a child of [n]. *)
Definition visits (n c : Node) : bool := existsb (entry_visits n c) _HIERARCHY.

(** Every element holds only children that one of its accessors
    returns. *)
Fixpoint well_formed (n : Node) : bool :=
  forallb (fun c => visits n c && well_formed c) (node_children n).

(** In the table, an entry with a delimiter is the last one that applies
    to an element. *)
Fixpoint join_last (c : Class) (table : list (Class * option Getter * option string))
  : bool :=
  match table with
  | [] => true
  | (class_, _, concatenate_with) :: rest =>
      (if subclass c class_ && bool_decide (is_Some concatenate_with)
       then forallb (fun entry => negb (subclass c entry.1.1)) rest
       else true)
      && join_last c rest
  end.

(** The body of the loop over the table, for one element. *)
Definition entry_body (K : Shapely) (strictness strategy : string) (cb cc : bool)
    (node : Node) (tag node_id : string) (node_poly : option (points * geom K))
    (entry : Class * option Getter * option string) (consistent : bool) : M bool :=
  let '(class_, getter, concatenate_with) := entry in
  if negb (isinstance node class_) then ret consistent
  else
    match getter with
    | None => raise TypeError
    | Some getter =>
        consistent <-
          for_children K cc
            (fun child => enter (validate_body K strictness strategy cb cc)
                                (Element child))
            getter tag node_poly (node_children node) consistent ;;
        consistent <- check_baseline_of K cb node tag node_id node_poly consistent ;;
        check_text strictness strategy node tag node_id (getattr node getter)
                   concatenate_with consistent
    end.

(** The element a call of [validate_consistency] works on. *)
Definition element_of (node : PyNode) : Node :=
  match node with
  | PcGts p => get_Page p
  | Element n => n
  end.

(** Neither a text nor the text errors of the report have changed. *)
Definition quiet (s s' : State) : Prop :=
  st_text s' = st_text s /\ same_text_errors s s'.

(** No entry with a delimiter applies to the element. *)
Definition no_text_check (n : Node) (table : list (Class * option Getter * option string))
  : Prop :=
  forall class_ getter d,
    (class_, Some getter, Some d) ∈ table -> isinstance n class_ = false.

(** How a run over an element with settled children ends. *)
Inductive text_outcome (strictness strategy : string) (n : Node) (tag node_id : string)
    (table : list (Class * option Getter * option string))
    (s : State) (r : Result bool) (s' : State) : Prop :=
| outcome_quiet :
    quiet s s' ->
    (forall b, r = Ok b -> no_text_check n table) ->
    text_outcome strictness strategy n tag node_id table s r s'
| outcome_checked class_ getter d consistent s2 :
    (class_, Some getter, Some d) ∈ table ->
    isinstance n class_ = true ->
    quiet s s2 ->
    check_text strictness strategy n tag node_id (getattr n getter) (Some d)
               consistent s2 = (r, s') ->
    text_outcome strictness strategy n tag node_id table s r s'.

(** The children of an element are settled. *)
Definition below_settled (n : Node) (s : State) : Prop :=
  forall c, c ∈ node_children n -> settled s c.

(** [quiet], provided the children of [n] are settled to begin with. *)
Definition quiet_below (n : Node) (s s' : State) : Prop :=
  below_settled n s -> quiet s s'.

(** A computation that returns from every state. *)
Definition returns {A} (c : M A) : Prop := forall s, exists a s', c s = (Ok a, s').

(** ** Worked examples *)

(** The two lines "foo" and "bar" joined as the table prescribes. *)
Definition foo_bar_joined : string := ("foo" ++ newline ++ "bar")%string.

Module Example.

(** The corners of an axis-parallel rectangle. *)
Definition box (x0 y0 x1 y1 : Z) : points :=
  [(x0, y0); (x1, y0); (x1, y1); (x0, y1)].

(** A single [TextEquiv] without index. *)
Definition text (t : string) : list TextEquivType :=
  [ {| index := None; get_Unicode := t |} ].

Definition empty_state (texts : gmap addr (list TextEquivType)) : State :=
  mkState texts [] [].

(** A text line reading "fo o" over the words "foo" and "o". *)
Definition word1 : Node :=
  mkNode WordType 2%nat "w1" (Some (box 0 0 30 10)) None None [].
Definition word2 : Node :=
  mkNode WordType 3%nat "w2" (Some (box 40 0 50 10)) None None [].
Definition line : Node :=
  mkNode TextLineType 1%nat "l1" (Some (box 0 0 50 10)) None
         (Some [(0, 8); (50, 8)]) [word1; word2].
Definition line_state : State :=
  empty_state (<[1%nat := text "fo o"]> (<[2%nat := text "foo"]>
                                           (<[3%nat := text "o"]> ∅))).

Definition line_run : Result bool * State :=
  validate_consistency Rect.kernel "fix" "index1" true true (Element line) line_state.

(** A text region over the lines "foo" and "bar", with a text of its
    own. *)
Definition line_foo : Node :=
  mkNode TextLineType 2%nat "l1" (Some (box 0 0 50 10)) None None [].
Definition line_bar : Node :=
  mkNode TextLineType 3%nat "l2" (Some (box 0 10 50 20)) None None [].
Definition region : Node :=
  mkNode TextRegionType 1%nat "r1" (Some (box 0 0 50 20)) None None
         [line_foo; line_bar].
Definition region_state (t : string) : State :=
  empty_state (<[1%nat := text t]> (<[2%nat := text "foo"]>
                                      (<[3%nat := text "bar"]> ∅))).
Definition region_run (strictness t : string) : Result bool * State :=
  validate_consistency Rect.kernel strictness "index1" true true
                       (Element region) (region_state t).

(** The same region with an outline reaching into negative
    coordinates. *)
Definition negative_region : Node :=
  mkNode TextRegionType 1%nat "r1" (Some (box (-5) (-5) 50 20)) None None
         [line_foo; line_bar].

(** A region whose outline has two points only. *)
Definition two_point_region : Node :=
  mkNode TextRegionType 1%nat "r1" (Some [(0, 0); (10, 10)]) None None [].
Definition two_point_run : Result bool * State :=
  validate_consistency Rect.kernel "strict" "index1" true true
                       (Element two_point_region) (empty_state ∅).

(** A page without [Border] holding the region, and one holding a
    region without [Coords]. *)
Definition page : Node :=
  mkNode PageType 0%nat "" None None None [region].
Definition pcgts : PcGtsType := {| get_pcGtsId := "p1"; get_Page := page |}.

(** A page with a border and a graphic region reaching out of it. *)
Definition graphic : Node :=
  mkNode GraphicRegionType 5%nat "g1" (Some (box 10 10 200 50)) None None [].
Definition graphic_page : Node :=
  mkNode PageType 0%nat "" None (Some (Some (box 0 0 100 100))) None [graphic].
Definition graphic_run : Result bool * State :=
  validate_consistency Rect.kernel "strict" "index1" true true
    (PcGts {| get_pcGtsId := "p3"; get_Page := graphic_page |}) (empty_state ∅).

(** A text line with a baseline, whose outline reaches into negative
    coordinates. *)
Definition negative_line : Node :=
  mkNode TextLineType 7%nat "l3" (Some (box (-5) 0 50 10)) None
         (Some [(0, 8); (40, 8)]) [].
Definition negative_line_run : Result bool * State :=
  validate_consistency Rect.kernel "strict" "index1" true true
                       (Element negative_line) (empty_state ∅).

(** The same page with a graphic region whose outline reaches into
    negative coordinates. *)
Definition negative_graphic : Node :=
  mkNode GraphicRegionType 6%nat "g2" (Some (box (-5) 10 50 50)) None None [].
Definition negative_graphic_page : Node :=
  mkNode PageType 0%nat "" None (Some (Some (box 0 0 100 100))) None [negative_graphic].
Definition negative_graphic_run : Result bool * State :=
  validate_consistency Rect.kernel "strict" "index1" true true
    (PcGts {| get_pcGtsId := "p4"; get_Page := negative_graphic_page |}) (empty_state ∅).

(** Loaders for a caller that passes the parsed page itself. *)
Definition no_file (f : unit) : Result PcGtsType := Raise (ConfigError "no file").
Definition no_parse (f : string) : Result PcGtsType := Raise (ConfigError "no parser").
Definition validate_page (strategy : string) : Result (list Error) * State :=
  validate Rect.kernel no_file no_parse None (Some pcgts) None "strict" strategy
           true true (region_state "foo bar").

End Example.

(** ** Runs written out for comparison *)

(** [for child in children], doing nothing but the recursive call. *)
Definition visit_children (visit : Node -> M bool) (getter : Getter)
  : list Node -> bool -> M bool :=
  fix loop (all : list Node) (consistent : bool) : M bool :=
    match all with
    | [] => ret consistent
    | child :: rest =>
        if bool_decide (node_class child = getter_class getter) then
          r <- visit child ;;
          loop rest (r && consistent)
        else loop rest consistent
    end.


(** Two states a run may start from to end alike: under ['fix'] any
    two, otherwise two that hold the same texts. *)
Definition agree (strictness : string) (s t : State) : Prop :=
  PyStr.eqb strictness "fix" = true \/ st_text s = st_text t.

(** Two computations that, from states that agree, end alike, in states
    that agree, having added the same errors; what they return is related
    by [V]. *)
Definition related (strictness : string) {A B} (V : A -> B -> Prop)
    (c : M A) (c' : M B) : Prop :=
  forall s t,
    agree strictness s t ->
    agree strictness (c s).2 (c' t).2
    /\ (exists es, st_report (c s).2 = st_report s ++ es
                   /\ st_report (c' t).2 = st_report t ++ es)
    /\ match (c s).1, (c' t).1 with
       | Ok a, Ok b => V a b
       | Raise e, Raise e' => e = e'
       | _, _ => False
       end.

(** The relation that holds of any two values. *)
Definition any {A B} (a : A) (b : B) : Prop := True.




(** ** Vocabulary of the further properties *)

(** The position of the first entry with [index == 1], the length of the
    list when there is none. *)
Fixpoint first_index1 (l : list TextEquivType) : nat :=
  match l with
  | [] => 0%nat
  | x :: l' => if bool_decide (index x = Some 1) then 0%nat else S (first_index1 l')
  end.

(** The position of the entry [get_text] reads and [set_text] writes in
    a non-empty list. *)
Definition selected (l : list TextEquivType) : nat :=
  if (1 <? Z.of_nat (List.length l)) && negb (bool_decide (index1 l = []))
  then first_index1 l else 0%nat.

(** Whether the last character of a string is white space. *)
Fixpoint ends_with_space (s : string) : bool :=
  match s with
  | EmptyString => false
  | String c EmptyString => PyStr.isspace c
  | String _ s' => ends_with_space s'
  end.

(** Whether a string is made of white space only. *)
Fixpoint all_space (s : string) : bool :=
  match s with
  | EmptyString => true
  | String c s' => PyStr.isspace c && all_space s'
  end.

(** The record of [within] is as it was and the report has grown by
    text consistency errors only. *)
Definition only_text_errors_added (s s' : State) : Prop :=
  st_within s' = st_within s
  /\ exists es, st_report s' = st_report s ++ es
                /\ Forall (fun e => is_text_error e = true) es.

(** ** The returned boolean and the state *)

(** How the boolean [r] a step returns and the state [s'] it leaves
    stand to the boolean [consistent] it was given and the state [s] it
    started from: [True] is returned only when [True] was given and
    neither a text nor the report has changed; when [False] is returned
    for [True] under ['strict'], the report has grown. *)
Definition judged (strictness : string) (consistent : bool) (s : State)
    (r : bool) (s' : State) : Prop :=
  if r then
    consistent = true /\ st_text s' = st_text s /\ st_report s' = st_report s
  else
    (List.length (st_report s) <= List.length (st_report s'))%nat
    /\ (consistent = false
        \/ (strictness = "strict" ->
            (List.length (st_report s) < List.length (st_report s'))%nat)).

Definition verdict (strictness : string) (consistent : bool) (s : State)
    (out : Result bool * State) : Prop :=
  match out with
  | (Ok r, s') => judged strictness consistent s r s'
  | (Raise _, _) => True
  end.

(** Settles [judged] for a step whose result and state are known. *)
Ltac judge :=
  unfold verdict, judged; cbn [st_text st_report];
  rewrite ?length_app; cbn [List.length];
  first [ split; [reflexivity | split; reflexivity]
        | split; [lia | first [left; reflexivity | right; intros; lia]] ].

(** * Properties *)

(** ** Induction over the element tree *)

Lemma Node_tree_ind (P : Node -> Prop) :
  (forall c a i co bo ba ch, Forall P ch -> P (mkNode c a i co bo ba ch)) ->
  forall n, P n.
Proof.
  intros step. fix IH 1. intros [c a i co bo ba ch].
  apply step. induction ch as [|x ch IHch]; constructor.
  - apply IH.
  - exact IHch.
Qed.

(** ** Reading the text of an element *)

Lemma get_text_run node strategy s :
  get_text node strategy s = (Ok (text_of s node), s).
Proof. reflexivity. Qed.

Lemma mapM_get_text_run strategy nodes s :
  mapM (fun node => get_text node strategy) nodes s
  = (Ok (map (text_of s) nodes), s).
Proof.
  induction nodes as [|n nodes IH]; [reflexivity|].
  cbn [mapM map]. unfold bind at 1. rewrite get_text_run.
  unfold bind at 1. fold (mapM (fun node => get_text node strategy)).
  rewrite IH. reflexivity.
Qed.

Lemma concatenate_run nodes concatenate_with strategy s :
  concatenate nodes concatenate_with strategy s
  = (Ok (concatenated_of s nodes concatenate_with), s).
Proof.
  unfold concatenate, bind. rewrite mapM_get_text_run. reflexivity.
Qed.

Lemma set_text_run node text strategy s :
  set_text node text strategy s = (Ok tt, with_text s node text).
Proof. reflexivity. Qed.

Lemma add_error_run e s : add_error e s = (Ok tt, with_error s e).
Proof. reflexivity. Qed.

(** [check_text] as a function of the state. *)
Lemma check_text_run strictness strategy node tag node_id children cw consistent s :
  check_text strictness strategy node tag node_id children cw consistent s =
  match cw with
  | None => (Ok consistent, s)
  | Some d =>
      if PyStr.eqb strictness "off" then (Ok consistent, s)
      else if mismatch s node children d then
        (Ok false,
         if PyStr.eqb strictness "fix" then
           with_text s node (concatenated_of s children d)
         else if PyStr.eqb strictness "strict"
                 || negb (compare_without_whitespace
                            (concatenated_of s children d) (text_of s node))
         then with_error s (ConsistencyError tag node_id (text_of s node)
                                             (concatenated_of s children d))
         else s)
      else (Ok consistent, s)
  end.
Proof.
  unfold check_text. destruct cw as [d|]; [|reflexivity].
  destruct (PyStr.eqb strictness "off"); [reflexivity|]. cbn [negb].
  unfold bind at 1. rewrite concatenate_run.
  unfold bind at 1. rewrite get_text_run.
  unfold mismatch.
  destruct (PyStr.truthy (concatenated_of s children d)
            && PyStr.truthy (text_of s node)
            && negb (PyStr.eqb (concatenated_of s children d) (text_of s node)));
    [|reflexivity].
  unfold bind.
  destruct (PyStr.eqb strictness "fix"); [reflexivity|].
  destruct (PyStr.eqb strictness "strict"
            || negb (compare_without_whitespace (concatenated_of s children d)
                                                (text_of s node))); reflexivity.
Qed.

Lemma validate_body_unfold K strictness strategy cb cc node_id node :
  validate_body K strictness strategy cb cc node_id node =
  (let tag := tagname (node_class node) in
   own <- check_own K cb cc node tag node_id ;;
   let '(node_poly, consistent) := own in
   for_hierarchy
     (fun '(class_, getter, concatenate_with) consistent =>
        if negb (isinstance node class_) then ret consistent
        else
          match getter with
          | None => raise TypeError
          | Some getter =>
              consistent <-
                for_children K cc
                  (fun child => enter (validate_body K strictness strategy cb cc)
                                      (Element child))
                  getter tag node_poly (node_children node) consistent ;;
              consistent <- check_baseline_of K cb node tag node_id node_poly consistent ;;
              check_text strictness strategy node tag node_id (getattr node getter)
                         concatenate_with consistent
          end)
     _HIERARCHY consistent).
Proof. destruct node; reflexivity. Qed.

(** ** Relations every run maintains

    A reflexive and transitive relation between states that each effect
    of the validator respects, under the conditions in which the
    validator performs that effect, relates the states before and after
    every run, whether it returns or raises. *)

Section Maintained.

Context (K : Shapely) (strictness strategy : string) (cb cc : bool).
Context (R : State -> State -> Prop).
Context (T : Node -> Prop).

Hypothesis R_refl : forall s, R s s.
Hypothesis R_trans : forall a b c, R a b -> R b c -> R a c.
Hypothesis R_geometry_error :
  forall s e, cc || cb = true -> is_text_error e = false -> R s (with_error s e).
Hypothesis R_text_error :
  forall s node tag node_id class_ getter d,
    T node ->
    (class_, Some getter, Some d) ∈ _HIERARCHY ->
    isinstance node class_ = true ->
    PyStr.eqb strictness "fix" = false ->
    PyStr.eqb strictness "off" = false ->
    mismatch s node (getattr node getter) d = true ->
    R s (with_error s (ConsistencyError tag node_id (text_of s node)
                         (concatenated_of s (getattr node getter) d))).
Hypothesis R_within :
  forall s inner outer,
    within_child K cc inner outer \/ within_baseline K cb inner outer ->
    R s (with_within s inner outer).
Hypothesis R_set_text :
  forall s node class_ getter d,
    T node ->
    (class_, Some getter, Some d) ∈ _HIERARCHY ->
    isinstance node class_ = true ->
    PyStr.eqb strictness "fix" = true ->
    mismatch s node (getattr node getter) d = true ->
    R s (with_text s node (concatenated_of s (getattr node getter) d)).
Hypothesis T_children :
  forall n c, T n -> c ∈ node_children n -> T c.

Lemma triple_ret {A} (a : A) (Q : A -> Prop) : Q a -> triple R (ret a) Q.
Proof using R_refl. intros H s. split; [apply R_refl | exact H]. Qed.

Lemma triple_raise {A} e (Q : A -> Prop) : triple R (raise e) Q.
Proof using R_refl. intros s. split; [apply R_refl | exact I]. Qed.

Lemma triple_bind {A B} (c : M A) (k : A -> M B) (P : A -> Prop) (Q : B -> Prop) :
  triple R c P -> (forall a, P a -> triple R (k a) Q) -> triple R (bind c k) Q.
Proof using R_trans.
  intros Hc Hk s. unfold bind. specialize (Hc s).
  destruct (c s) as [[a|e] s1]; cbn in *.
  - destruct Hc as [HR HP]. specialize (Hk a HP s1).
    destruct (k a s1) as [r s2]; cbn in *. destruct Hk as [HR2 HQ].
    split; [eapply R_trans; eassumption | exact HQ].
  - destruct Hc as [HR _]. split; [exact HR | exact I].
Qed.

Lemma triple_mono {A} (c : M A) (P Q : A -> Prop) :
  triple R c P -> (forall a, P a -> Q a) -> triple R c Q.
Proof.
  intros Hc HPQ s. specialize (Hc s). destruct Hc as [HR HP].
  split; [exact HR|]. destruct ((c s).1); [apply HPQ; exact HP | exact I].
Qed.

Lemma triple_points_of c : triple R (points_of c) (fun p => c = Some p).
Proof using R_refl.
  destruct c; [apply triple_ret; reflexivity | apply triple_raise].
Qed.

Lemma triple_construct {G} (ctor : points -> option G) p :
  triple R (construct ctor p) (fun g => ctor p = Some g).
Proof using R_refl.
  unfold construct. destruct (ctor p); [apply triple_ret; reflexivity | apply triple_raise].
Qed.

Lemma triple_add_error e (Q : unit -> Prop) :
  cc || cb = true -> is_text_error e = false -> Q tt -> triple R (add_error e) Q.
Proof using R_geometry_error.
  intros Hf He HQ s. split; [apply R_geometry_error; assumption | exact HQ].
Qed.

Lemma triple_note_within inner outer (Q : unit -> Prop) :
  within_child K cc inner outer \/ within_baseline K cb inner outer ->
  Q tt -> triple R (note_within inner outer) Q.
Proof using R_within.
  intros H HQ s. split; [apply R_within; exact H | exact HQ].
Qed.

Lemma triple_check_own node tag node_id :
  triple R (check_own K cb cc node tag node_id) (fun own => poly_built K own.1).
Proof using R_refl R_trans R_geometry_error.
  unfold check_own. destruct (Bool.bool_dec (cc || cb) true) as [Ef|Ef].
  2:{ apply not_true_is_false in Ef. rewrite Ef. apply triple_ret. exact I. }
  rewrite Ef.
  destruct (if isinstance node PageType then get_Border node else Some (get_Coords node))
    as [coords|]; [|apply triple_ret; exact I].
  eapply triple_bind; [apply triple_points_of|]. intros pp _.
  eapply triple_bind; [apply triple_construct|]. intros g Hg.
  destruct (invalid K g).
  - eapply triple_bind;
      [apply triple_add_error with (Q := fun _ => True); [exact Ef|reflexivity|exact I]|].
    intros _ _. apply triple_ret. exact Hg.
  - apply triple_ret. exact Hg.
Qed.

Lemma triple_check_child tag node_poly child consistent :
  poly_built K node_poly ->
  triple R (check_child K cc tag node_poly child consistent) (fun _ => True).
Proof using R_refl R_trans R_geometry_error R_within.
  intros Hp. unfold check_child. destruct node_poly as [[pp o]|]; [|apply triple_ret; exact I].
  cbn in Hp. destruct (cc && truth K o) eqn:E; [|apply triple_ret; exact I].
  apply andb_prop in E as [Ecc Eo].
  assert (Ef : cc || cb = true) by (rewrite Ecc; reflexivity).
  eapply triple_bind; [apply triple_points_of|]. intros cp _.
  eapply triple_bind; [apply triple_construct|]. intros g Hg.
  destruct (invalid K g) eqn:Eg.
  - eapply triple_bind; [apply triple_add_error with (Q := fun _ => True); [exact Ef|reflexivity|exact I]|].
    intros _ _. apply triple_ret. exact I.
  - eapply triple_bind.
    + apply triple_note_within with (Q := fun _ => True); [|exact I].
      left. exists o, g. repeat split; assumption.
    + intros _ _. destruct (negb (within K g o)); [|apply triple_ret; exact I].
      eapply triple_bind; [apply triple_add_error with (Q := fun _ => True); [exact Ef|reflexivity|exact I]|].
      intros _ _. apply triple_ret. exact I.
Qed.

Lemma triple_check_baseline_of node tag node_id node_poly consistent :
  poly_built K node_poly ->
  triple R (check_baseline_of K cb node tag node_id node_poly consistent) (fun _ => True).
Proof using R_refl R_trans R_geometry_error R_within.
  intros Hp. unfold check_baseline_of.
  destruct (get_Baseline node) as [bp|]; [|apply triple_ret; exact I].
  destruct (isinstance node TextLineType && cb) eqn:E; [|apply triple_ret; exact I].
  apply andb_prop in E as [_ Ecb].
  assert (Ef : cc || cb = true) by (rewrite Ecb; apply orb_true_r).
  eapply triple_bind; [apply triple_construct|]. intros g Hg.
  destruct (invalid K g) eqn:Eg.
  - eapply triple_bind; [apply triple_add_error with (Q := fun _ => True); [exact Ef|reflexivity|exact I]|].
    intros _ _. apply triple_ret. exact I.
  - destruct node_poly as [[pp o]|]; [|apply triple_raise]. cbn in Hp.
    eapply triple_bind.
    + apply triple_note_within with (Q := fun _ => True); [|exact I].
      right. exists o, g. repeat split; assumption.
    + intros _ _. destruct (negb (within K g o)); [|apply triple_ret; exact I].
      eapply triple_bind; [apply triple_add_error with (Q := fun _ => True); [exact Ef|reflexivity|exact I]|].
      intros _ _. apply triple_ret. exact I.
Qed.

Lemma triple_check_text node tag node_id class_ getter cw consistent :
  T node ->
  (class_, Some getter, cw) ∈ _HIERARCHY ->
  isinstance node class_ = true ->
  triple R (check_text strictness strategy node tag node_id (getattr node getter)
                     cw consistent)
         (fun _ => True).
Proof using R_refl R_text_error R_set_text.
  intros HT Hin Hcls s. rewrite check_text_run.
  destruct cw as [d|]; [|split; [apply R_refl|exact I]].
  destruct (PyStr.eqb strictness "off") eqn:Eoff; [split; [apply R_refl|exact I]|].
  destruct (mismatch s node (getattr node getter) d) eqn:Em;
    [|split; [apply R_refl|exact I]].
  cbn. split; [|exact I].
  destruct (PyStr.eqb strictness "fix") eqn:Efix.
  - eapply R_set_text; eauto.
  - destruct (PyStr.eqb strictness "strict"
              || negb (compare_without_whitespace
                         (concatenated_of s (getattr node getter) d)
                         (text_of s node))).
    + eapply R_text_error; eauto.
    + apply R_refl.
Qed.

Lemma triple_for_children visit getter tag node_poly all :
  poly_built K node_poly ->
  Forall (fun child => triple R (visit child) (fun _ => True)) all ->
  forall consistent,
    triple R (for_children K cc visit getter tag node_poly all consistent) (fun _ => True).
Proof using R_refl R_trans R_geometry_error R_within.
  intros Hp Hall. induction Hall as [|child rest Hc _ IH]; intros consistent.
  - apply triple_ret. exact I.
  - cbn [for_children].
    destruct (bool_decide (node_class child = getter_class getter)); [|apply IH].
    eapply triple_bind; [exact Hc|]. intros r _.
    eapply triple_bind; [apply triple_check_child; exact Hp|]. intros c' _.
    apply IH.
Qed.

Lemma triple_for_hierarchy body table :
  (forall entry consistent,
      entry ∈ table -> triple R (body entry consistent) (fun _ => True)) ->
  forall consistent, triple R (for_hierarchy body table consistent) (fun _ => True).
Proof using R_refl R_trans.
  induction table as [|entry rest IH]; intros Hb consistent.
  - apply triple_ret. exact I.
  - cbn [for_hierarchy]. eapply triple_bind.
    + apply Hb. apply list_elem_of_here.
    + intros c' _. apply IH. intros e c He. apply Hb. apply list_elem_of_further. exact He.
Qed.

Lemma triple_enter body node :
  (forall node_id, triple R (body node_id node) (fun _ => True)) ->
  triple R (enter body (Element node)) (fun _ => True).
Proof using R_refl.
  intros Hb. unfold enter.
  destruct (isinstance node GlyphType); [apply triple_ret; exact I|].
  destruct (isinstance node PageType); [apply triple_raise|]. apply Hb.
Qed.

(** Every run of the body relates the states around it. *)
Lemma triple_validate_body node :
  T node ->
  forall node_id,
    triple R (validate_body K strictness strategy cb cc node_id node) (fun _ => True).
Proof using All.
  induction node as [c a i co bo ba ch IH] using Node_tree_ind.
  intros HT node_id. rewrite validate_body_unfold. cbv zeta.
  eapply triple_bind; [apply triple_check_own|].
  intros [node_poly consistent] Hp. cbn in Hp.
  apply triple_for_hierarchy. intros [[class_ getter] cw] c0 Hentry.
  destruct (isinstance _ class_) eqn:Hcls; cbn [negb]; [|apply triple_ret; exact I].
  destruct getter as [getter|]; [|apply triple_raise].
  eapply triple_bind.
  - apply triple_for_children; [exact Hp|].
    cbn [node_children]. rewrite Forall_forall in IH |- *.
    intros child Hin. apply triple_enter. intros cid. apply IH; [exact Hin|].
    eapply T_children; [exact HT|exact Hin].
  - intros c1 _. eapply triple_bind; [apply triple_check_baseline_of; exact Hp|].
    intros c2 _. eapply triple_check_text; eauto.
Qed.

(** The loop over the table, or over a part of it, from any state. *)
Lemma triple_entries node tag node_id node_poly table consistent :
  T node -> poly_built K node_poly ->
  (forall entry, entry ∈ table -> entry ∈ _HIERARCHY) ->
  triple R (for_hierarchy
              (entry_body K strictness strategy cb cc node tag node_id node_poly)
              table consistent)
         (fun _ => True).
Proof using All.
  intros HT Hp Hsub. apply triple_for_hierarchy. intros [[class_ getter] cw] c0 Hentry.
  apply Hsub in Hentry. unfold entry_body.
  destruct (isinstance _ class_) eqn:Hcls; cbn [negb]; [|apply triple_ret; exact I].
  destruct getter as [getter|]; [|apply triple_raise].
  eapply triple_bind.
  - apply triple_for_children; [exact Hp|]. rewrite Forall_forall.
    intros child Hin. apply triple_enter. intros cid. apply triple_validate_body.
    eapply T_children; [exact HT|exact Hin].
  - intros c1 _. eapply triple_bind; [apply triple_check_baseline_of; exact Hp|].
    intros c2 _. eapply triple_check_text; eauto.
Qed.

Lemma triple_validate_consistency node :
  match node with PcGts p => T (get_Page p) | Element n => T n end ->
  triple R (validate_consistency K strictness strategy cb cc node) (fun _ => True).
Proof using All.
  intros HT. destruct node as [p|n].
  - apply triple_validate_body. exact HT.
  - apply triple_enter. intros node_id. apply triple_validate_body. exact HT.
Qed.

End Maintained.

(** ** The report only grows *)

Lemma report_grows_refl s : report_grows s s.
Proof. exists []. rewrite app_nil_r. reflexivity. Qed.

Lemma report_grows_trans a b c :
  report_grows a b -> report_grows b c -> report_grows a c.
Proof.
  intros [e1 H1] [e2 H2]. exists (e1 ++ e2). rewrite H2, H1, app_assoc. reflexivity.
Qed.

Lemma validate_body_report_grows K strictness strategy cb cc node_id node s :
  report_grows s (validate_body K strictness strategy cb cc node_id node s).2.
Proof.
  apply (triple_validate_body K strictness strategy cb cc report_grows (fun _ => True));
    try (intros; exact I).
  - apply report_grows_refl.
  - apply report_grows_trans.
  - intros s0 e _ _. exists [e]. reflexivity.
  - intros. eexists [_]. reflexivity.
  - intros. exists []. cbn. rewrite app_nil_r. reflexivity.
  - intros. exists []. cbn. rewrite app_nil_r. reflexivity.
Qed.

(** ** What a run may change in the texts *)

Lemma set_first_index1_index text l :
  map index (set_first_index1 text l) = map index l.
Proof.
  induction l as [|x l IH]; [reflexivity|]. cbn [set_first_index1].
  destruct (bool_decide (index x = Some 1)); cbn; [reflexivity|]. rewrite IH. reflexivity.
Qed.

Lemma set_first_index1_again t1 t2 l :
  set_first_index1 t2 (set_first_index1 t1 l) = set_first_index1 t2 l.
Proof.
  induction l as [|x l IH]; [reflexivity|]. cbn [set_first_index1].
  destruct (bool_decide (index x = Some 1)) eqn:E; cbn [set_first_index1 index].
  - rewrite E. reflexivity.
  - rewrite E, IH. reflexivity.
Qed.

Lemma index1_nil_iff l : index1 l = [] <-> Forall (fun x => index x <> Some 1) l.
Proof.
  unfold index1. induction l as [|x l IH]; cbn [List.filter].
  - split; [constructor | reflexivity].
  - destruct (bool_decide (index x = Some 1)) eqn:E.
    + apply bool_decide_eq_true in E. split; [discriminate|].
      intros H. inversion H; subst. contradiction.
    + apply bool_decide_eq_false in E. rewrite IH. split.
      * intros H. constructor; assumption.
      * intros H. inversion H; subst. assumption.
  Qed.

Lemma index1_nil_by_index l l' :
  map index l = map index l' -> index1 l = [] -> index1 l' = [].
Proof.
  rewrite !index1_nil_iff. revert l'.
  induction l as [|x l IH]; intros [|y l'] Hm H; try discriminate; [constructor|].
  cbn in Hm. injection Hm as Hxy Hm. inversion H; subst.
  constructor; [congruence | apply IH; assumption].
Qed.

Lemma index1_nil_same_index l l' :
  map index l = map index l' ->
  bool_decide (index1 l = []) = bool_decide (index1 l' = []).
Proof.
  intros Hm. apply bool_decide_ext. split; apply index1_nil_by_index; congruence.
Qed.

Lemma store_text_index text l :
  l <> [] -> map index (store_text text l) = map index l.
Proof.
  destruct l as [|x l]; [congruence|]. intros _. unfold store_text.
  destruct (_ && _); [apply set_first_index1_index | reflexivity].
Qed.

Lemma store_text_length text l :
  l <> [] -> List.length (store_text text l) = List.length l.
Proof.
  intros H. rewrite <- (length_map index (store_text text l)), store_text_index by exact H.
  apply length_map.
Qed.

Lemma store_text_nonempty text l : store_text text l <> [].
Proof.
  destruct l as [|x l]; [discriminate|]. unfold store_text.
  destruct (_ && _); [|discriminate]. cbn [set_first_index1].
  destruct (bool_decide _); discriminate.
Qed.

(** Storing twice overwrites the same entry. *)
Lemma store_text_again t1 t2 l :
  l <> [] -> store_text t2 (store_text t1 l) = store_text t2 l.
Proof.
  intros Hl.
  assert (Hi := store_text_index t1 l Hl).
  assert (Hn := store_text_length t1 l Hl).
  destruct l as [|x l]; [congruence|].
  destruct (store_text t1 (x :: l)) as [|y l'] eqn:E; [cbn in Hn; discriminate|].
  unfold store_text at 1. rewrite Hn.
  rewrite (index1_nil_same_index _ _ Hi).
  unfold store_text in E |- *.
  destruct ((1 <? Z.of_nat (List.length (x :: l))) && negb (bool_decide (index1 (x :: l) = []))).
  - rewrite <- E. apply set_first_index1_again.
  - injection E as <- <-. reflexivity.
Qed.

(** The selected text after storing is the stored text, stripped. *)
Lemma select_set_first_index1 text l x rest :
  index1 l = x :: rest ->
  exists rest', index1 (set_first_index1 text l)
                = {| index := index x; get_Unicode := text |} :: rest'.
Proof.
  unfold index1. revert x rest. induction l as [|y l IH]; intros x rest H; [discriminate|].
  cbn [List.filter set_first_index1] in *.
  destruct (bool_decide (index y = Some 1)) eqn:E.
  - injection H as <- <-. cbn [List.filter index]. rewrite E. eexists. reflexivity.
  - cbn [List.filter]. rewrite E. apply IH with (rest := rest). exact H.
Qed.

Lemma select_store_text text l :
  select_text (store_text text l) = PyStr.strip text.
Proof.
  destruct l as [|x l]; [reflexivity|].
  assert (Hl : x :: l <> []) by discriminate.
  assert (Hi := store_text_index text _ Hl).
  assert (Hn := store_text_length text _ Hl).
  destruct (store_text text (x :: l)) as [|y l'] eqn:E; [cbn in Hn; discriminate|].
  unfold select_text. rewrite Hn. unfold store_text in E.
  destruct (1 <? Z.of_nat (List.length (x :: l))) eqn:Elen; cbn [andb] in E.
  - destruct (index1 (x :: l)) as [|z rest] eqn:E1.
    + cbn in E. injection E as <- <-.
      assert (H0 : index1 ({| index := index x; get_Unicode := text |} :: l) = []).
      { apply (index1_nil_by_index (x :: l)); [reflexivity | exact E1]. }
      rewrite H0. reflexivity.
    + cbn [bool_decide negb] in E.
      replace (bool_decide (z :: rest = [])) with false in E
        by (symmetry; apply bool_decide_eq_false; discriminate).
      cbn [negb] in E.
      destruct (select_set_first_index1 text _ _ _ E1) as [rest' H1].
      rewrite E in H1. rewrite H1. reflexivity.
  - injection E as <- <-. reflexivity.
Qed.

Lemma only_canonical_text_same strictness s s' :
  st_text s' = st_text s -> only_canonical_text strictness s s'.
Proof.
  intros H. split; [intros _; exact H | intros a; left; unfold texts_at; rewrite H; reflexivity].
Qed.

Lemma only_canonical_text_refl strictness s : only_canonical_text strictness s s.
Proof. apply only_canonical_text_same. reflexivity. Qed.

Lemma only_canonical_text_trans strictness a b c :
  only_canonical_text strictness a b -> only_canonical_text strictness b c ->
  only_canonical_text strictness a c.
Proof.
  intros [H1 H1'] [H2 H2']. split.
  - intros Hs. rewrite (H2 Hs). exact (H1 Hs).
  - intros x. destruct (H1' x) as [E1|[N1 [t1 E1]]], (H2' x) as [E2|[N2 [t2 E2]]].
    + left. congruence.
    + right. rewrite E1 in N2, E2. split; [exact N2 | exists t2; exact E2].
    + right. split; [exact N1 | exists t1; congruence].
    + right. split; [exact N1|]. exists t2. rewrite E2, E1.
      apply store_text_again. exact N1.
Qed.

Lemma mismatch_text_nonempty s node children d :
  mismatch s node children d = true -> texts_of s node <> [].
Proof.
  unfold mismatch, text_of. intros H E. rewrite E in H. cbn in H.
  rewrite andb_false_r in H. discriminate.
Qed.

Lemma only_canonical_text_set strictness s node text :
  PyStr.eqb strictness "fix" = true ->
  texts_of s node <> [] ->
  only_canonical_text strictness s (with_text s node text).
Proof.
  intros Hfix Hne. apply bool_decide_eq_true in Hfix. split; [congruence|].
  intros a. unfold texts_at, with_text. cbn [st_text].
  destruct (decide (node_obj node = a)) as [<-|Hna].
  - right. rewrite lookup_insert_eq. cbn. split; [exact Hne|]. eexists. reflexivity.
  - left. rewrite lookup_insert_ne by exact Hna. reflexivity.
Qed.

Lemma validate_body_only_canonical_text K strictness strategy cb cc node_id node s :
  only_canonical_text strictness s
    (validate_body K strictness strategy cb cc node_id node s).2.
Proof.
  apply (triple_validate_body K strictness strategy cb cc
           (only_canonical_text strictness) (fun _ => True));
    try (intros; exact I).
  - apply only_canonical_text_refl.
  - apply only_canonical_text_trans.
  - intros. apply only_canonical_text_same. reflexivity.
  - intros. apply only_canonical_text_same. reflexivity.
  - intros. apply only_canonical_text_same. reflexivity.
  - intros s0 n cl g d _ _ _ Hfix Hm. apply only_canonical_text_set; [exact Hfix|].
    eapply mismatch_text_nonempty. exact Hm.
Qed.

(** ** Strictness ['fix'] reports no text error *)

Lemma text_errors_app l1 l2 : text_errors (l1 ++ l2) = text_errors l1 ++ text_errors l2.
Proof. apply List.filter_app. Qed.

Lemma validate_body_fix_no_text_error K strategy cb cc node_id node s :
  same_text_errors s (validate_body K "fix" strategy cb cc node_id node s).2.
Proof.
  apply (triple_validate_body K "fix" strategy cb cc same_text_errors (fun _ => True));
    try (intros; exact I); unfold same_text_errors.
  - reflexivity.
  - intros a b c H1 H2. congruence.
  - intros s0 e _ He. cbn. rewrite text_errors_app. cbn. rewrite He. apply app_nil_r.
  - intros s0 n tag nid cl g d _ _ _ Hfix. discriminate.
  - reflexivity.
  - reflexivity.
Qed.

(** ** When containment is evaluated *)

Section WithinLog.

Context (K : Shapely) (cb cc : bool).


End WithinLog.

(** ** Elements whose text agrees with their children's *)

Lemma nodes_self n : n ∈ nodes n.
Proof. destruct n. cbn. apply list_elem_of_here. Qed.

Lemma nodes_child n c m : c ∈ node_children n -> m ∈ nodes c -> m ∈ nodes n.
Proof.
  intros Hc Hm. destruct n as [cl a i co bo ba ch]. cbn in *.
  apply list_elem_of_further. apply list_elem_of_In, in_flat_map.
  exists c. split; apply list_elem_of_In; assumption.
Qed.

Lemma nodes_inv n m :
  m ∈ nodes n -> m = n \/ exists c, c ∈ node_children n /\ m ∈ nodes c.
Proof.
  destruct n as [cl a i co bo ba ch]. cbn. intros H.
  apply elem_of_cons in H as [H|H]; [left; exact H|]. right.
  apply list_elem_of_In, in_flat_map in H as [c [H1 H2]].
  exists c. split; apply list_elem_of_In; assumption.
Qed.

Lemma nodes_trans n : forall m x, m ∈ nodes n -> x ∈ nodes m -> x ∈ nodes n.
Proof.
  induction n as [cl a i co bo ba ch IH] using Node_tree_ind. intros m x Hm Hx.
  apply nodes_inv in Hm as [->|[c [Hc Hm]]]; [exact Hx|].
  apply nodes_child with (c := c); [exact Hc|].
  rewrite Forall_forall in IH. eapply IH; eassumption.
Qed.

Lemma settled_nodes s n : settled s n -> forall m, m ∈ nodes n -> settled s m.
Proof.
  induction n as [cl a i co bo ba ch IH] using Node_tree_ind. intros Hs m Hm.
  apply nodes_inv in Hm as [->|[c [Hc Hm]]]; [exact Hs|].
  rewrite Forall_forall in IH. apply (IH c Hc); [|exact Hm].
  inversion Hs; subst. auto.
Qed.

Lemma getattr_children node getter c : c ∈ getattr node getter -> c ∈ node_children node.
Proof.
  unfold getattr. intros H. apply list_elem_of_In, filter_In in H as [H _].
  apply list_elem_of_In. exact H.
Qed.

Lemma child_obj n c : c ∈ node_children n -> node_obj c ∈ objs n.
Proof.
  intros H. unfold objs. apply list_elem_of_fmap. exists c. split; [reflexivity|].
  apply nodes_child with (c := c); [exact H | apply nodes_self].
Qed.

Lemma self_obj n : node_obj n ∈ objs n.
Proof.
  unfold objs. apply list_elem_of_fmap. exists n. split; [reflexivity | apply nodes_self].
Qed.

Lemma objs_child n c a : c ∈ node_children n -> a ∈ objs c -> a ∈ objs n.
Proof.
  unfold objs. intros Hc Ha. apply list_elem_of_fmap in Ha as [m [-> Hm]].
  apply list_elem_of_fmap. exists m. split; [reflexivity|].
  eapply nodes_child; eassumption.
Qed.

(** The text checks of an element look only at the element and at its
    children. *)
Lemma mismatch_local s s' node children d :
  st_text s !! node_obj node = st_text s' !! node_obj node ->
  (forall c, c ∈ children -> st_text s !! node_obj c = st_text s' !! node_obj c) ->
  mismatch s node children d = mismatch s' node children d.
Proof.
  intros Hn Hc. unfold mismatch, concatenated_of.
  assert (Ht : text_of s node = text_of s' node).
  { unfold text_of, texts_of. rewrite Hn. reflexivity. }
  assert (Hm : map (text_of s) children = map (text_of s') children).
  { apply map_ext_in. intros c Hin. unfold text_of, texts_of.
    rewrite (Hc c) by (apply list_elem_of_In; exact Hin). reflexivity. }
  rewrite Ht, Hm. reflexivity.
Qed.

Lemma settled_local s s' n :
  (forall a, a ∈ objs n -> st_text s !! a = st_text s' !! a) ->
  settled s n -> settled s' n.
Proof.
  induction n as [cl a i co bo ba ch IH] using Node_tree_ind. intros Hloc Hs.
  inversion Hs as [n Hh Hc]; subst. constructor.
  - intros class_ getter d Hin Hcls. rewrite <- (Hh class_ getter d Hin Hcls).
    symmetry. apply mismatch_local.
    + apply Hloc. apply self_obj.
    + intros c Hcin. apply Hloc. apply child_obj. eapply getattr_children. exact Hcin.
  - intros c Hcin. rewrite Forall_forall in IH. apply (IH c Hcin).
    + intros x Hx. apply Hloc. eapply objs_child; eassumption.
    + apply Hc. exact Hcin.
Qed.

Lemma settled_same_text s s' n : st_text s = st_text s' -> settled s n -> settled s' n.
Proof. intros H. apply settled_local. intros a _. rewrite H. reflexivity. Qed.

Lemma validate_body_settled K strictness strategy cb cc node_id root s :
  text_untouched root s (validate_body K strictness strategy cb cc node_id root s).2.
Proof.
  apply (triple_validate_body K strictness strategy cb cc (text_untouched root)
                              (fun m => m ∈ nodes root));
    unfold text_untouched, same_text_errors.
  - intros s0 _. split; reflexivity.
  - intros a b c H1 H2 Ha. destruct (H1 Ha) as [T1 E1].
    destruct (H2 (settled_same_text a b root (eq_sym T1) Ha)) as [T2 E2].
    split; congruence.
  - intros s0 e _ He _. split; [reflexivity|]. cbn. rewrite text_errors_app. cbn.
    rewrite He. apply app_nil_r.
  - intros s0 n tag nid cl g d Hn Hin Hcls _ _ Hm Hs. exfalso.
    assert (Hsn := settled_nodes _ _ Hs n Hn). inversion Hsn as [n' Hh _]; subst.
    rewrite (Hh cl g d Hin Hcls) in Hm. discriminate.
  - intros s0 inner outer _ _. split; reflexivity.
  - intros s0 n cl g d Hn Hin Hcls _ Hm Hs. exfalso.
    assert (Hsn := settled_nodes _ _ Hs n Hn). inversion Hsn as [n' Hh _]; subst.
    rewrite (Hh cl g d Hin Hcls) in Hm. discriminate.
  - intros n c Hn Hc. eapply nodes_trans; [exact Hn|].
    eapply nodes_child; [exact Hc | apply nodes_self].
  - apply nodes_self.
Qed.

(** ** The geometry checks leave the texts alone *)



Lemma check_child_same_text K cc tag node_poly child consistent s :
  same_text s (check_child K cc tag node_poly child consistent s).2.
Proof.
  destruct node_poly as [[pp o]|]; [|reflexivity].
  unfold check_child. destruct (cc && truth K o); [|reflexivity].
  unfold bind, points_of. destruct (get_Coords child) as [cp|]; [|reflexivity]. cbn.
  unfold construct. destruct (Polygon K cp) as [g|]; [|reflexivity]. cbn.
  destruct (invalid K g); [reflexivity|]. cbn.
  destruct (negb (within K g o)); reflexivity.
Qed.

Lemma check_baseline_of_same_text K cb node tag node_id node_poly consistent s :
  same_text s (check_baseline_of K cb node tag node_id node_poly consistent s).2.
Proof.
  unfold check_baseline_of. destruct (get_Baseline node) as [bp|]; [|reflexivity].
  destruct (isinstance node TextLineType && cb); [|reflexivity].
  unfold bind, construct. destruct (LineString K bp) as [g|]; [|reflexivity]. cbn.
  destruct (invalid K g); [reflexivity|].
  destruct node_poly as [[pp o]|]; [|reflexivity]. cbn.
  destruct (negb (within K g o)); reflexivity.
Qed.

(** ** A tree of distinct objects *)

Lemma NoDup_fmap_eq {A B} (f : A -> B) (l : list A) x y :
  NoDup (f <$> l) -> x ∈ l -> y ∈ l -> f x = f y -> x = y.
Proof.
  induction l as [|z l IH]; intros Hnd Hx Hy Hf.
  - apply elem_of_nil in Hx. contradiction.
  - cbn in Hnd. apply NoDup_cons in Hnd as [Hz Hnd].
    apply elem_of_cons in Hx as [->|Hx], Hy as [->|Hy].
    + reflexivity.
    + exfalso. apply Hz. rewrite Hf. apply list_elem_of_fmap_2. exact Hy.
    + exfalso. apply Hz. rewrite <- Hf. apply list_elem_of_fmap_2. exact Hx.
    + apply IH; assumption.
Qed.

Section Tree.

(** The tree under validation: no object occurs in it twice. *)
Context (root : Node).
Hypothesis root_tree : NoDup (objs root).

Lemma obj_in_subtree m x :
  m ∈ nodes root -> x ∈ nodes root -> node_obj x ∈ objs m -> x ∈ nodes m.
Proof using root_tree.
  intros Hm Hx Hobj. unfold objs in Hobj.
  apply list_elem_of_fmap in Hobj as [y [Hxy Hy]].
  assert (Hyr : y ∈ nodes root) by exact (nodes_trans root m y Hm Hy).
  rewrite (NoDup_fmap_eq node_obj (nodes root) x y root_tree Hx Hyr Hxy). exact Hy.
Qed.

Lemma stays_settled_same_text s s' : same_text s s' -> stays_settled root s s'.
Proof. intros H m _. apply settled_same_text. symmetry. exact H. Qed.

Lemma stays_settled_set_text s x class_ getter d text :
  x ∈ nodes root ->
  (class_, Some getter, Some d) ∈ _HIERARCHY ->
  isinstance x class_ = true ->
  mismatch s x (getattr x getter) d = true ->
  stays_settled root s (with_text s x text).
Proof using root_tree.
  intros Hx Hin Hcls Hm m Hmr Hs.
  destruct (decide (node_obj x ∈ objs m)) as [Hobj|Hobj].
  - exfalso. assert (Hxm := obj_in_subtree m x Hmr Hx Hobj).
    assert (Hsx := settled_nodes _ _ Hs x Hxm). inversion Hsx as [x' Hh _]; subst.
    rewrite (Hh class_ getter d Hin Hcls) in Hm. discriminate.
  - eapply settled_local; [|exact Hs]. intros a Ha. cbn.
    rewrite lookup_insert_ne; [reflexivity|]. intros E. rewrite E in Hobj. contradiction.
Qed.

Lemma validate_body_stays_settled K strictness strategy cb cc node_id n s :
  n ∈ nodes root ->
  stays_settled root s (validate_body K strictness strategy cb cc node_id n s).2.
Proof using root_tree.
  intros Hn.
  apply (triple_validate_body K strictness strategy cb cc (stays_settled root)
                              (fun m => m ∈ nodes root)).
  - intros s0 m _ H. exact H.
  - intros a b c H1 H2 m Hm Hs. apply H2, H1; assumption.
  - intros. apply stays_settled_same_text. reflexivity.
  - intros. apply stays_settled_same_text. reflexivity.
  - intros. apply stays_settled_same_text. reflexivity.
  - intros s0 x cl g d Hx Hin Hcls _ Hm. eapply stays_settled_set_text; eassumption.
  - intros x c Hx Hc. eapply nodes_trans; [exact Hx|].
    eapply nodes_child; [exact Hc | apply nodes_self].
  - exact Hn.
Qed.

End Tree.

Lemma default_Some {A} (d x : A) : default d (Some x) = x.
Proof. reflexivity. Qed.

(** ** Stripping twice *)

Lemma lstrip_lstripped s : lstripped (PyStr.lstrip s).
Proof.
  induction s as [|c s IH]; [exact I|]. cbn.
  destruct (PyStr.isspace c) eqn:E; [exact IH | exact E].
Qed.

Lemma lstrip_id s : lstripped s -> PyStr.lstrip s = s.
Proof. destruct s as [|c s]; [reflexivity|]. cbn. intros ->. reflexivity. Qed.

Lemma rstrip_lstripped s : lstripped s -> lstripped (PyStr.rstrip s).
Proof.
  destruct s as [|c s]; [intros _; exact I|]. cbn. intros E.
  destruct (PyStr.rstrip s); [rewrite E|]; exact E.
Qed.

Lemma rstrip_rstrip s : PyStr.rstrip (PyStr.rstrip s) = PyStr.rstrip s.
Proof.
  induction s as [|c s IH]; [reflexivity|]. cbn [PyStr.rstrip].
  destruct (PyStr.rstrip s) as [|c' r] eqn:E.
  - destruct (PyStr.isspace c) eqn:Ec; [reflexivity|]. cbn. rewrite Ec. reflexivity.
  - cbn [PyStr.rstrip] in IH |- *. rewrite IH. reflexivity.
Qed.

Lemma strip_strip s : PyStr.strip (PyStr.strip s) = PyStr.strip s.
Proof.
  unfold PyStr.strip.
  rewrite (lstrip_id (PyStr.rstrip (PyStr.lstrip s))).
  - apply rstrip_rstrip.
  - apply rstrip_lstripped, lstrip_lstripped.
Qed.

Lemma eqb_refl_str s : PyStr.eqb s s = true.
Proof. apply bool_decide_eq_true. reflexivity. Qed.

(** ** Trees as the PAGE classes build them *)

Lemma well_formed_child n c :
  well_formed n = true -> c ∈ node_children n ->
  visits n c = true /\ well_formed c = true.
Proof.
  destruct n as [cl a i co bo ba ch]. cbn. intros H Hc.
  rewrite forallb_forall in H. apply andb_prop. apply H. apply list_elem_of_In. exact Hc.
Qed.

Lemma well_formed_nodes n :
  well_formed n = true -> forall m, m ∈ nodes n -> well_formed m = true.
Proof.
  induction n as [cl a i co bo ba ch IH] using Node_tree_ind. intros Hwf m Hm.
  apply nodes_inv in Hm as [->|[c [Hc Hm]]]; [exact Hwf|].
  rewrite Forall_forall in IH. apply (IH c Hc); [|exact Hm].
  apply (well_formed_child _ _ Hwf Hc).
Qed.

Lemma join_last_HIERARCHY c : join_last c _HIERARCHY = true.
Proof. destruct c; vm_compute; reflexivity. Qed.

Lemma validate_body_entries K strictness strategy cb cc node_id node s :
  validate_body K strictness strategy cb cc node_id node s =
  match check_own K cb cc node (tagname (node_class node)) node_id s with
  | (Ok (node_poly, consistent), s0) =>
      for_hierarchy
        (entry_body K strictness strategy cb cc node (tagname (node_class node))
                    node_id node_poly)
        _HIERARCHY consistent s0
  | (Raise e, s0) => (Raise e, s0)
  end.
Proof.
  rewrite validate_body_unfold. cbv zeta. unfold bind at 1.
  destruct (check_own _ _ _ _ _ _ s) as [[[node_poly consistent]|e] s0]; reflexivity.
Qed.

Lemma for_hierarchy_skip K strictness strategy cb cc node tag node_id node_poly table :
  forallb (fun entry => negb (isinstance node entry.1.1)) table = true ->
  forall consistent s,
    for_hierarchy (entry_body K strictness strategy cb cc node tag node_id node_poly)
                  table consistent s = (Ok consistent, s).
Proof.
  induction table as [|[[cls g] cw] rest IH]; intros H consistent s; [reflexivity|].
  cbn in H. apply andb_prop in H as [H1 H2].
  cbn [for_hierarchy]. unfold bind. cbn [entry_body]. rewrite H1. cbn. apply IH. exact H2.
Qed.

Lemma join_entries class_ getter d :
  (class_, Some getter, Some d) ∈ _HIERARCHY ->
  (class_, getter, d) = (TextRegionType, get_TextLine, newline)
  \/ (class_, getter, d) = (TextLineType, get_Word, " ")
  \/ (class_, getter, d) = (WordType, get_Glyph, "").
Proof.
  intros H. apply list_elem_of_In in H. unfold _HIERARCHY in H. cbn [In] in H.
  repeat (destruct H as [H|H];
          [try discriminate H; injection H as <- <- <-; auto|]).
  contradiction.
Qed.

Lemma isinstance_glyph c : isinstance c GlyphType = true -> node_class c = GlyphType.
Proof.
  unfold isinstance. destruct (node_class c); intros H; try reflexivity;
    vm_compute in H; discriminate.
Qed.

(** A glyph has no accessor in the table: it is a leaf, and nothing is
    checked on it. *)
Lemma glyph_settled s c :
  isinstance c GlyphType = true -> well_formed c = true -> settled s c.
Proof.
  intros Hg Hwf. apply isinstance_glyph in Hg. constructor.
  - intros class_ getter d Hin Hcls. unfold isinstance in Hcls. rewrite Hg in Hcls.
    destruct (join_entries _ _ _ Hin) as [E|[E|E]]; injection E as -> _ _;
      vm_compute in Hcls; discriminate.
  - intros x Hx. exfalso. destruct (well_formed_child _ _ Hwf Hx) as [Hv _].
    unfold visits, entry_visits, isinstance in Hv. rewrite Hg in Hv.
    vm_compute in Hv. discriminate.
Qed.

Lemma nodes_length_child n c :
  c ∈ node_children n -> (List.length (nodes c) < List.length (nodes n))%nat.
Proof.
  destruct n as [cl a i co bo ba ch]. cbn. intros Hc.
  induction ch as [|x ch IH]; [apply elem_of_nil in Hc; contradiction|].
  cbn. rewrite length_app. apply elem_of_cons in Hc as [->|Hc]; [lia|].
  specialize (IH Hc). lia.
Qed.

Lemma child_not_self n c : c ∈ node_children n -> c <> n.
Proof. intros Hc ->. apply nodes_length_child in Hc. lia. Qed.

Lemma skipped_not_visited n c table :
  forallb (fun entry : Class * option Getter * option string =>
             negb (isinstance n entry.1.1)) table = true ->
  existsb (entry_visits n c) table = false.
Proof.
  induction table as [|[[cls g] cw] rest IH]; intros H; [reflexivity|].
  cbn in H |- *. apply andb_prop in H as [H1 H2]. rewrite (IH H2).
  destruct (isinstance n cls); [discriminate|reflexivity].
Qed.

Lemma skipped_not_instance n table entry :
  forallb (fun entry : Class * option Getter * option string =>
             negb (isinstance n entry.1.1)) table = true ->
  entry ∈ table -> isinstance n entry.1.1 = false.
Proof.
  intros H Hin. rewrite forallb_forall in H. apply list_elem_of_In in Hin.
  specialize (H entry Hin). destruct (isinstance n entry.1.1); [discriminate|reflexivity].
Qed.

Section Repair.

Context (root : Node).
Hypothesis root_tree : NoDup (objs root).
Context (K : Shapely) (strategy : string) (cb cc : bool).

Section AtNode.

Context (n : Node) (tag node_id : string) (node_poly : option (points * geom K)).
Hypothesis n_in : n ∈ nodes root.
Hypothesis n_wf : well_formed n = true.
Hypothesis below :
  forall c, c ∈ node_children n ->
    forall cid s b s',
      validate_body K "fix" strategy cb cc cid c s = (Ok b, s') -> settled s' c.

Lemma child_in c : c ∈ node_children n -> c ∈ nodes root.
Proof using n_in.
  intros Hc. eapply nodes_trans; [exact n_in|].
  eapply nodes_child; [exact Hc | apply nodes_self].
Qed.

Lemma visit_child c s r s' :
  c ∈ node_children n ->
  enter (validate_body K "fix" strategy cb cc) (Element c) s = (Ok r, s') ->
  stays_settled root s s' /\ settled s' c.
Proof using root_tree n_in n_wf below.
  intros Hc Hrun. unfold enter in Hrun.
  destruct (isinstance c GlyphType) eqn:Eg.
  - injection Hrun as <- <-. split; [intros m _ H; exact H|].
    apply glyph_settled; [exact Eg|]. apply (well_formed_child _ _ n_wf Hc).
  - destruct (isinstance c PageType); [discriminate|]. split.
    + pose proof (validate_body_stays_settled root root_tree K "fix" strategy cb cc
                    (get_id c) c s (child_in c Hc)) as H.
      rewrite Hrun in H. exact H.
    + eapply below; eassumption.
Qed.

(** One pass over the children of one accessor. *)
Lemma children_pass getter all :
  (forall c, c ∈ all -> c ∈ node_children n) ->
  forall consistent s c1 s1,
    for_children K cc
      (fun child => enter (validate_body K "fix" strategy cb cc) (Element child))
      getter tag node_poly all consistent s = (Ok c1, s1) ->
    stays_settled root s s1
    /\ forall c, c ∈ all -> node_class c = getter_class getter -> settled s1 c.
Proof using root_tree n_in n_wf below.
  induction all as [|child rest IH]; intros Hall consistent s c1 s1 Hrun.
  - injection Hrun as <- <-. split; [intros m _ H; exact H|].
    intros c Hc. apply elem_of_nil in Hc. contradiction.
  - assert (Hchild : child ∈ node_children n) by (apply Hall, list_elem_of_here).
    assert (Hrest : forall c, c ∈ rest -> c ∈ node_children n)
      by (intros c Hc; apply Hall, list_elem_of_further, Hc).
    cbn [for_children] in Hrun.
    destruct (bool_decide (node_class child = getter_class getter)) eqn:Ecls.
    + unfold bind at 1 in Hrun.
      destruct (enter _ (Element child) s) as [[r|e] sa] eqn:Ev; [|discriminate].
      destruct (visit_child child s r sa Hchild Ev) as [Hst1 Hset].
      unfold bind at 1 in Hrun.
      pose proof (check_child_same_text K cc tag node_poly child (r && consistent) sa)
        as Hsame.
      destruct (check_child K cc tag node_poly child (r && consistent) sa)
        as [[c'|e] sb]; [|discriminate].
      cbn in Hsame.
      destruct (IH Hrest c' sb c1 s1 Hrun) as [Hst2 Hall2]. split.
      * intros m Hm Hs. apply Hst2; [exact Hm|].
        apply (settled_same_text sa); [symmetry; exact Hsame|]. apply Hst1; assumption.
      * intros c Hc Hcc. apply elem_of_cons in Hc as [->|Hc].
        -- apply Hst2; [apply child_in; exact Hchild|].
           apply (settled_same_text sa); [symmetry; exact Hsame | exact Hset].
        -- apply Hall2; assumption.
    + destruct (IH Hrest consistent s c1 s1 Hrun) as [Hst2 Hall2]. split; [exact Hst2|].
      intros c Hc Hcc. apply elem_of_cons in Hc as [->|Hc].
      * apply bool_decide_eq_false in Ecls. contradiction.
      * apply Hall2; assumption.
Qed.

Lemma child_obj_ne c : c ∈ node_children n -> node_obj c <> node_obj n.
Proof using root_tree n_in.
  intros Hc E. apply (child_not_self n c Hc).
  apply (NoDup_fmap_eq node_obj (nodes root)); [exact root_tree| |exact n_in|exact E].
  apply child_in. exact Hc.
Qed.

(** After the repair of the element, its text check passes. *)
Lemma repaired_matches s getter d :
  mismatch (with_text s n (concatenated_of s (getattr n getter) d)) n
           (getattr n getter) d = false.
Proof using root_tree n_in.
  set (conc := concatenated_of s (getattr n getter) d).
  set (s3 := with_text s n conc).
  assert (Ht : text_of s3 n = conc).
  { unfold text_of, texts_of, s3, with_text. cbn [st_text].
    rewrite lookup_insert_eq, default_Some, select_store_text.
    rewrite strip_strip. unfold conc, concatenated_of. apply strip_strip. }
  assert (Hc : concatenated_of s3 (getattr n getter) d = conc).
  { unfold conc, concatenated_of. f_equal. f_equal. apply map_ext_in.
    intros c Hin. unfold text_of, texts_of, s3, with_text. cbn [st_text].
    rewrite lookup_insert_ne; [reflexivity|].
    intros E. apply (child_obj_ne c); [|symmetry; exact E].
    eapply getattr_children. apply list_elem_of_In. exact Hin. }
  unfold mismatch. rewrite Hc, Ht, eqb_refl_str. cbn. apply andb_false_r.
Qed.

(** The loop over the table, from any point of it on: the children
    of the accessors gone through are settled, and so is the text
    check of an entry with a delimiter. *)
Lemma hierarchy_loop todo :
  (forall entry, entry ∈ todo -> entry ∈ _HIERARCHY) ->
  join_last (node_class n) todo = true ->
  forall (D : Class -> Prop) consistent s b s',
    (forall c, c ∈ node_children n -> D (node_class c) -> settled s c) ->
    for_hierarchy (entry_body K "fix" strategy cb cc n tag node_id node_poly)
                  todo consistent s = (Ok b, s') ->
    (forall c, c ∈ node_children n ->
               D (node_class c) \/ existsb (entry_visits n c) todo = true ->
               settled s' c)
    /\ (forall class_ getter d,
           (class_, Some getter, Some d) ∈ todo -> isinstance n class_ = true ->
           mismatch s' n (getattr n getter) d = false).
Proof using root_tree n_in n_wf below.
  induction todo as [|[[cls g] cw] rest IH];
    intros Hsub Hlast D consistent s b s' HD Hrun.
  - injection Hrun as <- <-. split.
    + intros c Hc [Hd|Hx]; [apply HD; assumption | discriminate].
    + intros class_ getter d Hin. apply elem_of_nil in Hin. contradiction.
  - cbn [join_last] in Hlast. apply andb_prop in Hlast as [Hjoin Hlast].
    assert (Hhere : (cls, g, cw) ∈ _HIERARCHY) by apply Hsub, list_elem_of_here.
    specialize (IH (fun e He => Hsub e (list_elem_of_further _ _ _ He)) Hlast).
    cbn [for_hierarchy] in Hrun. unfold bind at 1 in Hrun.
    cbn [entry_body] in Hrun. change (subclass (node_class n) cls)
      with (isinstance n cls) in Hjoin.
    destruct (isinstance n cls) eqn:Ecls; cbn [negb] in Hrun.
    2:{ (* the entry does not apply *)
      destruct (IH D consistent s b s' HD Hrun) as [H1 H2]. split.
      - intros c Hc [Hd|Hx]; apply (H1 c Hc); [left; exact Hd|].
        cbn [existsb entry_visits] in Hx. rewrite Ecls in Hx. right. exact Hx.
      - intros class_ getter d Hin Hi. apply elem_of_cons in Hin as [E|Hin].
        + injection E as -> _ _. congruence.
        + eapply H2; eassumption. }
    destruct g as [g|]; [|discriminate].
    unfold bind at 1 in Hrun.
    destruct (for_children K cc _ g tag node_poly (node_children n) consistent s)
      as [[c1|e1] s1] eqn:Epass; [|discriminate].
    destruct (children_pass g (node_children n) (fun c H => H) consistent s c1 s1 Epass)
      as [Hst1 Hnew].
    unfold bind at 1 in Hrun.
    pose proof (check_baseline_of_same_text K cb n tag node_id node_poly c1 s1) as Hsame.
    destruct (check_baseline_of K cb n tag node_id node_poly c1 s1)
      as [[c2|e2] s2]; [|discriminate].
    cbn in Hsame. rewrite check_text_run in Hrun.
    assert (Hs2 : forall c, c ∈ node_children n ->
                    D (node_class c) \/ node_class c = getter_class g -> settled s2 c).
    { intros c Hc Hor. apply (settled_same_text s1); [symmetry; exact Hsame|].
      destruct Hor as [Hd|Hg]; [|apply Hnew; assumption].
      apply Hst1; [apply child_in; exact Hc | apply HD; assumption]. }
    destruct cw as [d|].
    + (* an entry with a delimiter: nothing after it applies *)
      cbn [andb bool_decide] in Hjoin.
      replace (bool_decide (is_Some (Some d))) with true in Hjoin
        by (symmetry; apply bool_decide_eq_true; eexists; reflexivity).
      cbn [andb] in Hjoin.
      replace (PyStr.eqb "fix" "off") with false in Hrun by reflexivity.
      replace (PyStr.eqb "fix" "fix") with true in Hrun by reflexivity.
      assert (Hskip : forall c0 s0,
                 for_hierarchy (entry_body K "fix" strategy cb cc n tag node_id node_poly)
                               rest c0 s0 = (Ok c0, s0))
        by (apply for_hierarchy_skip; exact Hjoin).
      assert (Hend : forall c, c ∈ node_children n ->
                 D (node_class c)
                 \/ existsb (entry_visits n c) ((cls, Some g, Some d) :: rest) = true ->
                 D (node_class c) \/ node_class c = getter_class g).
      { intros c Hc [Hd|Hx]; [left; exact Hd|right].
        cbn [existsb entry_visits] in Hx.
        rewrite (skipped_not_visited n c rest Hjoin), orb_false_r, Ecls in Hx.
        apply bool_decide_eq_true in Hx. exact Hx. }
      assert (Hjoins : forall s3, mismatch s3 n (getattr n g) d = false ->
                 forall class_ getter d',
                   (class_, Some getter, Some d') ∈ (cls, Some g, Some d) :: rest ->
                   isinstance n class_ = true ->
                   mismatch s3 n (getattr n getter) d' = false).
      { intros s3 Hm3 class_ getter d' Hin Hi. apply elem_of_cons in Hin as [E|Hin].
        - injection E as -> -> ->. exact Hm3.
        - apply (skipped_not_instance n rest _ Hjoin) in Hin. cbn in Hin. congruence. }
      destruct (mismatch s2 n (getattr n g) d) eqn:Em.
      * rewrite Hskip in Hrun. injection Hrun as <- <-. split.
        -- intros c Hc Hor.
           eapply (stays_settled_set_text root root_tree s2 n cls g d);
             [exact n_in | exact Hhere | exact Ecls | exact Em
              | apply child_in; exact Hc |].
           apply Hs2; [exact Hc | apply Hend; assumption].
        -- apply Hjoins. apply repaired_matches.
      * rewrite Hskip in Hrun. injection Hrun as <- <-. split.
        -- intros c Hc Hor. apply Hs2; [exact Hc | apply Hend; assumption].
        -- apply Hjoins. exact Em.
    + (* an entry without delimiter *)
      destruct (IH (fun k => D k \/ k = getter_class g) c2 s2 b s' Hs2 Hrun)
        as [H1 H2].
      split.
      * intros c Hc [Hd|Hx]; apply (H1 c Hc); [left; left; exact Hd|].
        cbn [existsb entry_visits] in Hx. rewrite Ecls in Hx. cbn [andb] in Hx.
        apply orb_prop in Hx as [Hx|Hx]; [|right; exact Hx].
        left. right. apply bool_decide_eq_true in Hx. exact Hx.
      * intros class_ getter d Hin Hi. apply elem_of_cons in Hin as [E|Hin];
          [discriminate E|]. eapply H2; eassumption.
Qed.

End AtNode.

(** A run under ['fix'] that returns leaves the element settled. *)
Lemma repair_settles n :
  n ∈ nodes root -> well_formed n = true ->
  forall node_id s b s',
    validate_body K "fix" strategy cb cc node_id n s = (Ok b, s') -> settled s' n.
Proof using root_tree.
  induction n as [cl a i co bo ba ch IH] using Node_tree_ind.
  intros Hin Hwf node_id s b s' Hrun.
  set (n := mkNode cl a i co bo ba ch) in *.
  assert (Hbelow : forall c, c ∈ node_children n ->
            forall cid s b s',
              validate_body K "fix" strategy cb cc cid c s = (Ok b, s') -> settled s' c).
  { intros c Hc. rewrite Forall_forall in IH. apply (IH c Hc).
    - eapply nodes_trans; [exact Hin|].
      eapply nodes_child; [exact Hc | apply nodes_self].
    - apply (well_formed_child _ _ Hwf Hc). }
  rewrite validate_body_entries in Hrun.
  destruct (check_own K cb cc n (tagname (node_class n)) node_id s)
    as [[[node_poly c0]|e] s0]; [|discriminate].
  destruct (hierarchy_loop n (tagname (node_class n)) node_id node_poly Hin Hwf Hbelow
              _HIERARCHY (fun e H => H) (join_last_HIERARCHY _)
              (fun _ => False) c0 s0 b s' (fun c _ F => False_ind _ F) Hrun)
    as [H1 H2].
  constructor; [exact H2|].
  intros c Hc. apply (H1 c Hc). right. apply (well_formed_child _ _ Hwf Hc).
Qed.

End Repair.

(** ** The text check comes last

    When the children of an element are settled, everything a run does
    before the text check of the element leaves the texts and the text
    errors as they are; the run then ends with that check, if the element
    has one. *)

Lemma quiet_refl s : quiet s s.
Proof. split; reflexivity. Qed.

Lemma quiet_trans a b c : quiet a b -> quiet b c -> quiet a c.
Proof. unfold quiet, same_text_errors. intros [H1 H2] [H3 H4]. split; congruence. Qed.

Lemma quiet_geometry_error s e : is_text_error e = false -> quiet s (with_error s e).
Proof.
  intros He. split; [reflexivity|]. unfold same_text_errors. cbn.
  rewrite text_errors_app. cbn. rewrite He. apply app_nil_r.
Qed.

Lemma quiet_within s inner outer : quiet s (with_within s inner outer).
Proof. split; reflexivity. Qed.


Lemma below_settled_quiet n s s' : quiet s s' -> below_settled n s -> below_settled n s'.
Proof.
  intros [H _] Hb c Hc. apply (settled_same_text s); [symmetry; exact H | apply Hb, Hc].
Qed.

Section TextCheckLast.

Context (K : Shapely) (strictness strategy : string) (cb cc : bool).
Context (n : Node) (tag node_id : string) (node_poly : option (points * geom K)).
Hypothesis n_poly : poly_built K node_poly.

Lemma quiet_below_trans a b c : quiet_below n a b -> quiet_below n b c -> quiet_below n a c.
Proof.
  intros H1 H2 Ha. specialize (H1 Ha). eapply quiet_trans; [exact H1|].
  apply H2. eapply below_settled_quiet; eassumption.
Qed.

Lemma children_quiet getter all :
  (forall c, c ∈ all -> c ∈ node_children n) ->
  forall consistent s,
    quiet_below n s
      (for_children K cc
         (fun child => enter (validate_body K strictness strategy cb cc) (Element child))
         getter tag node_poly all consistent s).2.
Proof using n_poly.
  intros Hall consistent s.
  apply (triple_for_children K cb cc (quiet_below n)).
  - intros s0 _. apply quiet_refl.
  - apply quiet_below_trans.
  - intros s0 e _ He _. apply quiet_geometry_error. exact He.
  - intros s0 inner outer _ _. apply quiet_within.
  - exact n_poly.
  - rewrite Forall_forall. intros child Hchild.
    apply triple_enter; [intros s0 _; apply quiet_refl|].
    intros cid s0. split; [|destruct (_).1; exact I].
    intros Hb. apply (validate_body_settled K strictness strategy cb cc cid child s0).
    apply Hb, Hall, Hchild.
Qed.

Lemma check_baseline_of_quiet consistent s :
  quiet s (check_baseline_of K cb n tag node_id node_poly consistent s).2.
Proof using n_poly.
  apply (triple_check_baseline_of K cb true quiet).
  - apply quiet_refl.
  - apply quiet_trans.
  - intros s0 e _. apply quiet_geometry_error.
  - intros. apply quiet_within.
  - exact n_poly.
Qed.

Lemma text_check_last_loop todo :
  (forall entry, entry ∈ todo -> entry ∈ _HIERARCHY) ->
  join_last (node_class n) todo = true ->
  forall consistent s r s',
    below_settled n s ->
    for_hierarchy (entry_body K strictness strategy cb cc n tag node_id node_poly)
                  todo consistent s = (r, s') ->
    text_outcome strictness strategy n tag node_id todo s r s'.
Proof using n_poly.
  induction todo as [|[[cls g] cw] rest IH]; intros Hsub Hlast consistent s r s' Hb Hrun.
  - injection Hrun as <- <-. apply outcome_quiet; [apply quiet_refl|].
    intros _ _ class_ getter d Hin. apply elem_of_nil in Hin. contradiction.
  - cbn [join_last] in Hlast. apply andb_prop in Hlast as [Hjoin Hlast].
    specialize (IH (fun e He => Hsub e (list_elem_of_further _ _ _ He)) Hlast).
    change (subclass (node_class n) cls) with (isinstance n cls) in Hjoin.
    cbn [for_hierarchy] in Hrun. unfold bind at 1 in Hrun. cbn [entry_body] in Hrun.
    destruct (isinstance n cls) eqn:Ecls; cbn [negb] in Hrun.
    2:{ cbn [ret] in Hrun.
        destruct (IH consistent s r s' Hb Hrun)
          as [Hq Hno|class_ getter d c2 s2 Hin Hi Hq Hc].
        - apply outcome_quiet; [exact Hq|]. intros b Hr class_ getter d Hin.
          apply elem_of_cons in Hin as [E|Hin]; [injection E as -> _ _; exact Ecls|].
          eapply Hno; eassumption.
        - eapply outcome_checked; [apply list_elem_of_further; exact Hin| | |]; eassumption. }
    destruct g as [g|].
    2:{ injection Hrun as <- <-.
        apply outcome_quiet; [apply quiet_refl | intros b Hr; discriminate]. }
    unfold bind at 1 in Hrun.
    pose proof (children_quiet g (node_children n) (fun c H => H) consistent s Hb) as Hq1.
    destruct (for_children K cc _ g tag node_poly (node_children n) consistent s)
      as [[c1|e1] s1]; cbn in Hq1.
    2:{ injection Hrun as <- <-.
        apply outcome_quiet; [exact Hq1 | intros b Hr; discriminate]. }
    unfold bind at 1 in Hrun.
    pose proof (check_baseline_of_quiet c1 s1) as Hq2.
    destruct (check_baseline_of K cb n tag node_id node_poly c1 s1) as [[c2|e2] s2];
      cbn in Hq2.
    2:{ injection Hrun as <- <-.
        apply outcome_quiet; [eapply quiet_trans; eassumption|].
        intros b Hr; discriminate. }
    assert (Hq : quiet s s2) by (eapply quiet_trans; eassumption).
    destruct cw as [d|].
    + replace (bool_decide (is_Some (Some d))) with true in Hjoin
        by (symmetry; apply bool_decide_eq_true; eexists; reflexivity).
      cbn [andb] in Hjoin.
      assert (Hskip : forall c0 s0,
                 for_hierarchy
                   (entry_body K strictness strategy cb cc n tag node_id node_poly)
                   rest c0 s0 = (Ok c0, s0))
        by (apply for_hierarchy_skip; exact Hjoin).
      destruct (check_text strictness strategy n tag node_id (getattr n g) (Some d) c2 s2)
        as [[c3|e3] s3] eqn:Ect.
      * rewrite Hskip in Hrun. injection Hrun as <- <-.
        eapply outcome_checked; [apply list_elem_of_here|exact Ecls|exact Hq|exact Ect].
      * injection Hrun as <- <-.
        eapply outcome_checked; [apply list_elem_of_here|exact Ecls|exact Hq|exact Ect].
    + cbn [check_text ret] in Hrun.
      destruct (IH c2 s2 r s' (below_settled_quiet n s s2 Hq Hb) Hrun)
        as [Hq' Hno|class_ getter d c3 s3 Hin Hi Hq' Hc].
      * apply outcome_quiet; [eapply quiet_trans; eassumption|].
        intros b Hr class_ getter d Hin.
        apply elem_of_cons in Hin as [E|Hin]; [discriminate E|].
        eapply Hno; eassumption.
      * eapply outcome_checked;
          [apply list_elem_of_further; exact Hin|exact Hi| |exact Hc].
        eapply quiet_trans; eassumption.
Qed.

End TextCheckLast.

Lemma check_own_quiet K cb cc node tag node_id s :
  quiet s (check_own K cb cc node tag node_id s).2
  /\ match (check_own K cb cc node tag node_id s).1 with
     | Ok own => poly_built K own.1
     | Raise _ => True
     end.
Proof.
  apply (triple_check_own K cb cc quiet).
  - apply quiet_refl.
  - apply quiet_trans.
  - intros s0 e _. apply quiet_geometry_error.
Qed.

Lemma validate_body_text_outcome K strictness strategy cb cc node_id n s r s' :
  below_settled n s ->
  validate_body K strictness strategy cb cc node_id n s = (r, s') ->
  text_outcome strictness strategy n (tagname (node_class n)) node_id _HIERARCHY s r s'.
Proof.
  intros Hb Hrun. rewrite validate_body_entries in Hrun.
  destruct (check_own_quiet K cb cc n (tagname (node_class n)) node_id s) as [Hq Hp].
  destruct (check_own K cb cc n (tagname (node_class n)) node_id s)
    as [[[node_poly c0]|e] s0]; cbn in Hq, Hp.
  2:{ injection Hrun as <- <-. apply outcome_quiet; [exact Hq | intros b Hr; discriminate]. }
  destruct (text_check_last_loop K strictness strategy cb cc n (tagname (node_class n))
              node_id node_poly Hp _HIERARCHY (fun e H => H) (join_last_HIERARCHY _)
              c0 s0 r s' (below_settled_quiet n s s0 Hq Hb) Hrun)
    as [Hq' Hno|class_ getter d c2 s2 Hin Hi Hq' Hc].
  - apply outcome_quiet; [eapply quiet_trans; eassumption | exact Hno].
  - eapply outcome_checked; [exact Hin|exact Hi| |exact Hc].
    eapply quiet_trans; eassumption.
Qed.

(** ** Without geometry checks a run returns *)

Lemma returns_ret {A} (a : A) : returns (ret a).
Proof. intros s. exists a, s. reflexivity. Qed.

Lemma returns_bind {A B} (c : M A) (k : A -> M B) :
  returns c -> (forall a, returns (k a)) -> returns (bind c k).
Proof.
  intros Hc Hk s. destruct (Hc s) as [a [s1 E]]. unfold bind. rewrite E. apply Hk.
Qed.

Lemma returns_check_text strictness strategy node tag node_id children cw consistent :
  returns (check_text strictness strategy node tag node_id children cw consistent).
Proof.
  intros s. rewrite check_text_run. destruct cw as [d|]; [|eexists _, _; reflexivity].
  destruct (PyStr.eqb strictness "off"); [eexists _, _; reflexivity|].
  destruct (mismatch s node children d); eexists _, _; reflexivity.
Qed.

Lemma returns_check_baseline_off K node tag node_id node_poly consistent :
  returns (check_baseline_of K false node tag node_id node_poly consistent).
Proof.
  unfold check_baseline_of. destruct (get_Baseline node); [|apply returns_ret].
  rewrite andb_false_r. apply returns_ret.
Qed.

Lemma returns_check_child_off K tag node_poly child consistent :
  returns (check_child K false tag node_poly child consistent).
Proof.
  unfold check_child. destruct node_poly as [[pp o]|]; apply returns_ret.
Qed.

Lemma getter_class_not_page g : getter_class g <> PageType.
Proof. destruct g; discriminate. Qed.

Lemma returns_for_children_off K visit getter tag node_poly all :
  Forall (fun child => node_class child = getter_class getter -> returns (visit child)) all ->
  forall consistent,
    returns (for_children K false visit getter tag node_poly all consistent).
Proof.
  intros Hall. induction Hall as [|child rest Hc _ IH]; intros consistent.
  - apply returns_ret.
  - cbn [for_children].
    destruct (bool_decide (node_class child = getter_class getter)) eqn:E; [|apply IH].
    apply bool_decide_eq_true in E. apply returns_bind; [apply Hc, E|]. intros r.
    apply returns_bind; [apply returns_check_child_off|]. intros c. apply IH.
Qed.

Lemma returns_for_hierarchy body table :
  (forall entry consistent, entry ∈ table -> returns (body entry consistent)) ->
  forall consistent, returns (for_hierarchy body table consistent).
Proof.
  induction table as [|entry rest IH]; intros Hb consistent.
  - apply returns_ret.
  - cbn [for_hierarchy]. apply returns_bind; [apply Hb, list_elem_of_here|].
    intros c. apply IH. intros e c' He. apply Hb, list_elem_of_further, He.
Qed.

Lemma entry_without_getter class_ cw :
  (class_, None, cw) ∈ _HIERARCHY -> class_ = GlyphType.
Proof.
  intros H. apply list_elem_of_In in H. unfold _HIERARCHY in H. cbn [In] in H.
  repeat (destruct H as [H|H]; [try discriminate H; injection H as <- <-; auto|]).
  contradiction.
Qed.

Lemma isinstance_page c : isinstance c PageType = true -> node_class c = PageType.
Proof.
  unfold isinstance. destruct (node_class c); intros H; try reflexivity;
    vm_compute in H; discriminate.
Qed.

Lemma validate_body_returns_off K strictness strategy n :
  isinstance n GlyphType = false ->
  forall node_id, returns (validate_body K strictness strategy false false node_id n).
Proof.
  induction n as [cl a i co bo ba ch IH] using Node_tree_ind. intros Hg node_id.
  rewrite validate_body_unfold. cbv zeta. unfold check_own. cbn [orb].
  apply returns_bind; [apply returns_ret|]. intros [node_poly consistent].
  apply returns_for_hierarchy. intros [[class_ getter] cw] c0 Hentry.
  destruct (isinstance _ class_) eqn:Ecls; cbn [negb]; [|apply returns_ret].
  destruct getter as [getter|].
  - apply returns_bind.
    + apply returns_for_children_off. cbn [node_children].
      eapply Forall_impl; [exact IH|]. intros child Hchild Hclass. unfold enter.
      destruct (isinstance child GlyphType) eqn:Eg; [apply returns_ret|].
      destruct (isinstance child PageType) eqn:Ep.
      * exfalso. apply isinstance_page in Ep. rewrite Hclass in Ep.
        exact (getter_class_not_page _ Ep).
      * apply Hchild. exact Eg.
    + intros c1. apply returns_bind; [apply returns_check_baseline_off|].
      intros c2. apply returns_check_text.
  - exfalso. apply entry_without_getter in Hentry. subst class_. congruence.
Qed.

(** ** The text check of an element with settled children *)

Lemma leaf_settled s c : node_children c = [] -> settled s c.
Proof.
  intros Hc. constructor.
  - intros class_ getter d _ _. unfold mismatch, concatenated_of, getattr.
    rewrite Hc. reflexivity.
  - intros x Hx. rewrite Hc in Hx. apply elem_of_nil in Hx. contradiction.
Qed.

Lemma join_unique n class_ getter d class' getter' d' :
  (class_, Some getter, Some d) ∈ _HIERARCHY -> isinstance n class_ = true ->
  (class', Some getter', Some d') ∈ _HIERARCHY -> isinstance n class' = true ->
  getter' = getter /\ d' = d.
Proof.
  intros H1 I1 H2 I2. unfold isinstance in I1, I2.
  destruct (join_entries _ _ _ H1) as [E|[E|E]]; injection E as -> -> ->;
    destruct (join_entries _ _ _ H2) as [E|[E|E]]; injection E as -> -> ->;
    try (split; reflexivity);
    destruct (node_class n); vm_compute in I1, I2; discriminate.
Qed.

Lemma text_of_quiet s s' n : quiet s s' -> text_of s' n = text_of s n.
Proof. intros [H _]. unfold text_of, texts_of. rewrite H. reflexivity. Qed.

Lemma concatenated_of_quiet s s' children d :
  quiet s s' -> concatenated_of s' children d = concatenated_of s children d.
Proof.
  intros H. unfold concatenated_of. f_equal. f_equal. apply map_ext.
  intros c. apply text_of_quiet. exact H.
Qed.

Lemma mismatch_quiet s s' n children d :
  quiet s s' -> mismatch s' n children d = mismatch s n children d.
Proof.
  intros H. unfold mismatch.
  rewrite (text_of_quiet _ _ n H), (concatenated_of_quiet _ _ children d H). reflexivity.
Qed.

(** How a call on an element with a text check and settled children
    ends: it raises in a geometry check, before anything is done to the
    texts, or it ends with the text check of the element. *)
Lemma text_check_result K strictness strategy cb cc n class_ getter d s r s' :
  (class_, Some getter, Some d) ∈ _HIERARCHY ->
  isinstance n class_ = true ->
  below_settled n s ->
  validate_consistency K strictness strategy cb cc (Element n) s = (r, s') ->
  (exists e, r = Raise e /\ quiet s s' /\ cb || cc = true)
  \/ (exists consistent s2,
         quiet s s2
         /\ check_text strictness strategy n (tagname (node_class n)) (get_id n)
                       (getattr n getter) (Some d) consistent s2 = (r, s')).
Proof.
  intros Hin Hcls Hb Hrun.
  assert (Hg : isinstance n GlyphType = false /\ isinstance n PageType = false).
  { unfold isinstance in *. destruct (join_entries _ _ _ Hin) as [E|[E|E]];
      injection E as -> _ _; destruct (node_class n); vm_compute in Hcls;
      try discriminate; split; reflexivity. }
  destruct Hg as [Hg Hp]. unfold validate_consistency, enter in Hrun.
  rewrite Hg, Hp in Hrun.
  destruct (validate_body_text_outcome K strictness strategy cb cc (get_id n) n s r s'
              Hb Hrun) as [Hq Hno|class' getter' d' c2 s2 Hin' Hi' Hq Hc].
  - destruct r as [b|e].
    + exfalso. specialize (Hno b eq_refl class_ getter d Hin). congruence.
    + left. exists e. split; [reflexivity|]. split; [exact Hq|].
      destruct cb, cc; try reflexivity. exfalso.
      destruct (validate_body_returns_off K strictness strategy n Hg (get_id n) s)
        as [b [s0 E]]. rewrite E in Hrun. discriminate.
  - right. destruct (join_unique n _ _ _ _ _ _ Hin Hcls Hin' Hi') as [-> ->].
    exists c2, s2. split; assumption.
Qed.

Lemma entry_TextRegion :
  (TextRegionType, Some get_TextLine, Some newline) ∈ _HIERARCHY.
Proof. apply list_elem_of_In. cbn. tauto. Qed.


Lemma entry_Word : (WordType, Some get_Glyph, Some "") ∈ _HIERARCHY.
Proof. apply list_elem_of_In. cbn. tauto. Qed.



(** C1, as the code has it: for a text region with exactly the two text
    lines "foo" and "bar" (each consistent with its words), the lines are
    joined by a line feed.  When the text of the region is that joined
    text, ['strict'] adds no text consistency error.  When it is "foo bar"
    or "foo  bar", ['lax'] adds none, and ['strict'] adds exactly one, for
    the region, once the run returns (it can only raise in a geometry
    check). *)
Theorem text_region_of_two_lines K strategy cb cc region line1 line2 s :
  node_class region = TextRegionType ->
  getattr region get_TextLine = [line1; line2] ->
  below_settled region s ->
  text_of s line1 = "foo" ->
  text_of s line2 = "bar" ->
  let run strictness :=
    validate_consistency K strictness strategy cb cc (Element region) s in
  (text_of s region = foo_bar_joined ->
   text_errors (st_report (run "strict").2) = text_errors (st_report s))
  /\ (forall t, t = "foo bar" \/ t = "foo  bar" ->
        text_of s region = t ->
        text_errors (st_report (run "lax").2) = text_errors (st_report s)
        /\ match (run "strict").1 with
           | Ok _ =>
               text_errors (st_report (run "strict").2)
               = text_errors (st_report s)
                 ++ [ConsistencyError "TextRegion" (get_id region) t foo_bar_joined]
           | Raise _ => cb || cc = true
           end).
Proof.
  intros Hcls Hlines Hb H1 H2 run.
  assert (Hi : isinstance region TextRegionType = true)
    by (unfold isinstance; rewrite Hcls; reflexivity).
  assert (Hc : concatenated_of s (getattr region get_TextLine) newline = foo_bar_joined).
  { unfold concatenated_of. rewrite Hlines. cbn [map]. rewrite H1, H2. reflexivity. }
  assert (Hres : forall strictness,
             (exists e, (run strictness).1 = Raise e /\ quiet s (run strictness).2
                        /\ cb || cc = true)
             \/ (exists consistent s2,
                   quiet s s2
                   /\ check_text strictness strategy region (tagname (node_class region))
                                 (get_id region) (getattr region get_TextLine)
                                 (Some newline) consistent s2
                      = ((run strictness).1, (run strictness).2))).
  { intros strictness.
    apply (text_check_result K strictness strategy cb cc region _ _ _ s _ _
                             entry_TextRegion Hi Hb).
    apply surjective_pairing. }
  clearbody run. split.
  - intros Ht. destruct (Hres "strict") as [[e [_ [[_ Hq] _]]]|[c2 [s2 [Hq Hck]]]];
      [exact Hq|].
    rewrite check_text_run in Hck.
    replace (PyStr.eqb "strict" "off") with false in Hck by reflexivity.
    assert (Hm : mismatch s2 region (getattr region get_TextLine) newline = false).
    { rewrite (mismatch_quiet s s2 _ _ _ Hq). unfold mismatch. rewrite Hc, Ht. reflexivity. }
    rewrite Hm in Hck. injection Hck as _ <-. destruct Hq as [_ Hq]. exact Hq.
  - intros t Hor Ht.
    assert (Hm : forall s2, quiet s s2 ->
               mismatch s2 region (getattr region get_TextLine) newline = true
               /\ compare_without_whitespace
                    (concatenated_of s2 (getattr region get_TextLine) newline)
                    (text_of s2 region) = true
               /\ concatenated_of s2 (getattr region get_TextLine) newline = foo_bar_joined
               /\ text_of s2 region = t).
    { intros s2 Hq. rewrite (mismatch_quiet s s2 _ _ _ Hq).
      rewrite (concatenated_of_quiet s s2 _ _ Hq), (text_of_quiet s s2 _ Hq).
      unfold mismatch. rewrite Hc, Ht. destruct Hor as [->| ->]; repeat split; reflexivity. }
    split.
    + destruct (Hres "lax") as [[e [_ [[_ Hq] _]]]|[c2 [s2 [Hq Hck]]]]; [exact Hq|].
      rewrite check_text_run in Hck.
      replace (PyStr.eqb "lax" "off") with false in Hck by reflexivity.
      replace (PyStr.eqb "lax" "fix") with false in Hck by reflexivity.
      replace (PyStr.eqb "lax" "strict") with false in Hck by reflexivity.
      destruct (Hm s2 Hq) as [Hm1 [Hm2 _]]. rewrite Hm1, Hm2 in Hck.
      cbn [orb negb] in Hck. injection Hck as _ <-. destruct Hq as [_ Hq]. exact Hq.
    + destruct (Hres "strict") as [[e [-> [_ Hf]]]|[c2 [s2 [Hq Hck]]]]; [exact Hf|].
      rewrite check_text_run in Hck.
      replace (PyStr.eqb "strict" "off") with false in Hck by reflexivity.
      replace (PyStr.eqb "strict" "fix") with false in Hck by reflexivity.
      replace (PyStr.eqb "strict" "strict") with true in Hck by reflexivity.
      destruct (Hm s2 Hq) as [Hm1 [_ [Hm3 Hm4]]]. rewrite Hm1, Hm3, Hm4 in Hck.
      cbn [orb] in Hck. injection Hck as <- <-.
      cbn [st_report with_error]. rewrite text_errors_app.
      destruct Hq as [_ Hq]. unfold same_text_errors in Hq. rewrite Hq.
      rewrite Hcls. reflexivity.
Qed.

Lemma example_region_settled t : below_settled Example.region (Example.region_state t).
Proof.
  intros c Hc. apply leaf_settled.
  apply elem_of_cons in Hc as [->|Hc]; [reflexivity|].
  apply elem_of_cons in Hc as [->|Hc]; [reflexivity|].
  apply elem_of_nil in Hc. contradiction.
Qed.

Lemma text_region_of_two_lines_witness :
  text_errors (st_report (Example.region_run "lax" "foo  bar").2) = []
  /\ text_errors (st_report (Example.region_run "strict" "foo  bar").2)
     = [ConsistencyError "TextRegion" "r1" "foo  bar" foo_bar_joined].
Proof.
  destruct (text_region_of_two_lines Rect.kernel "index1" true true Example.region
              Example.line_foo Example.line_bar (Example.region_state "foo  bar")
              eq_refl eq_refl (example_region_settled _) eq_refl eq_refl) as [_ H].
  destruct (H "foo  bar" (or_intror eq_refl) eq_refl) as [HL HS].
  split; [exact HL|]. vm_compute in HS. vm_compute. exact HS.
Defined.

(** C1, as stated, fails: with the text "foo bar" on the region,
    ['strict'] does add a text consistency error, because the lines are
    joined by a line feed, not by a space. *)
Lemma strict_foo_bar_counterexample :
  text_errors (st_report (Example.region_run "strict" "foo bar").2)
  = [ConsistencyError "TextRegion" "r1" "foo bar" foo_bar_joined]
  /\ text_errors (st_report (Example.region_run "strict" "foo bar").2) <> [].
Proof. split; [vm_compute; reflexivity | vm_compute; discriminate]. Qed.

(** C8, as the code has it: under ['lax'], when the text of an element
    and the joined text of its (settled) children are both non-empty and
    differ, but are equal once all white space is removed, the run changes
    no text and adds no text consistency error; the result it returns is
    nevertheless [false], since the flag is cleared before the strictness
    is looked at. *)
Theorem lax_tolerates_whitespace K strategy cb cc n class_ getter d s r s' :
  (class_, Some getter, Some d) ∈ _HIERARCHY ->
  isinstance n class_ = true ->
  below_settled n s ->
  PyStr.truthy (concatenated_of s (getattr n getter) d) = true ->
  PyStr.truthy (text_of s n) = true ->
  concatenated_of s (getattr n getter) d <> text_of s n ->
  compare_without_whitespace (concatenated_of s (getattr n getter) d) (text_of s n) = true ->
  validate_consistency K "lax" strategy cb cc (Element n) s = (r, s') ->
  st_text s' = st_text s
  /\ text_errors (st_report s') = text_errors (st_report s)
  /\ match r with
     | Ok consistent => consistent = false
     | Raise _ => cb || cc = true
     end.
Proof.
  intros Hin Hi Hb Hc Ht Hne Hws Hrun.
  destruct (text_check_result K "lax" strategy cb cc n _ _ _ s r s' Hin Hi Hb Hrun)
    as [[e [-> [[Hq1 Hq2] Hflag]]]|[c2 [s2 [Hq Hck]]]].
  - repeat split; assumption.
  - rewrite check_text_run in Hck.
    replace (PyStr.eqb "lax" "off") with false in Hck by reflexivity.
    replace (PyStr.eqb "lax" "fix") with false in Hck by reflexivity.
    replace (PyStr.eqb "lax" "strict") with false in Hck by reflexivity.
    rewrite (mismatch_quiet s s2 _ _ _ Hq) in Hck.
    rewrite (concatenated_of_quiet s s2 _ _ Hq), (text_of_quiet s s2 _ Hq) in Hck.
    unfold mismatch in Hck. rewrite Hc, Ht, Hws in Hck.
    replace (PyStr.eqb (concatenated_of s (getattr n getter) d) (text_of s n))
      with false in Hck by (symmetry; apply bool_decide_eq_false; exact Hne).
    cbn in Hck. injection Hck as <- <-. destruct Hq as [Hq1 Hq2].
    repeat split; assumption.
Qed.

Lemma lax_tolerates_whitespace_witness :
  st_text (Example.region_run "lax" "foo  bar").2 = st_text (Example.region_state "foo  bar")
  /\ text_errors (st_report (Example.region_run "lax" "foo  bar").2)
     = text_errors (st_report (Example.region_state "foo  bar"))
  /\ match (Example.region_run "lax" "foo  bar").1 with
     | Ok consistent => consistent = false
     | Raise _ => true || true = true
     end.
Proof.
  apply (lax_tolerates_whitespace Rect.kernel "index1" true true Example.region
           TextRegionType get_TextLine newline (Example.region_state "foo  bar")).
  - exact entry_TextRegion.
  - reflexivity.
  - apply example_region_settled.
  - vm_compute. reflexivity.
  - vm_compute. reflexivity.
  - vm_compute. discriminate.
  - vm_compute. reflexivity.
  - apply surjective_pairing.
Defined.

(** C8, as stated, fails in its last part: on the region "foo  bar" over
    the lines "foo" and "bar", the run under ['lax'] adds no error, and
    returns [false], not [true]. *)
Lemma lax_result_counterexample :
  st_report (Example.region_run "lax" "foo  bar").2 = []
  /\ (Example.region_run "lax" "foo  bar").1 = Ok false
  /\ (Example.region_run "lax" "foo  bar").1 <> Ok true.
Proof.
  split; [vm_compute; reflexivity|].
  split; [vm_compute; reflexivity | vm_compute; discriminate].
Qed.

(** C6: repair is idempotent.  On a tree (no object occurs twice, and
    every element holds only children of its accessors), once a run under
    ['fix'] has returned, a second run (under ['fix'] again, or under any
    other strictness, with any flags) changes no text and reports no text
    consistency error: it finds no mismatch. *)
Theorem repair_idempotent K strategy cb cc node s consistent s1
    K' strictness' strategy' cb' cc' :
  NoDup (objs (element_of node)) ->
  well_formed (element_of node) = true ->
  validate_consistency K "fix" strategy cb cc node s = (Ok consistent, s1) ->
  st_text (validate_consistency K' strictness' strategy' cb' cc' node s1).2 = st_text s1
  /\ text_errors (st_report (validate_consistency K' strictness' strategy' cb' cc' node s1).2)
     = text_errors (st_report s1).
Proof.
  intros Htree Hwf Hrun.
  assert (Hbody : forall node_id n,
             n = element_of node ->
             validate_body K "fix" strategy cb cc node_id n s = (Ok consistent, s1) ->
             forall node_id',
               st_text (validate_body K' strictness' strategy' cb' cc' node_id' n s1).2
               = st_text s1
               /\ text_errors
                    (st_report (validate_body K' strictness' strategy' cb' cc' node_id' n s1).2)
                  = text_errors (st_report s1)).
  { intros node_id n -> Hn node_id'.
    apply (validate_body_settled K' strictness' strategy' cb' cc' node_id'
                                 (element_of node) s1).
    apply (repair_settles (element_of node) Htree K strategy cb cc (element_of node)
                          (nodes_self _) Hwf node_id s consistent s1 Hn). }
  destruct node as [p|n]; cbn [element_of] in *.
  - apply (Hbody (get_pcGtsId p) (get_Page p) eq_refl Hrun).
  - unfold validate_consistency, enter in *.
    destruct (isinstance n GlyphType); [split; reflexivity|].
    destruct (isinstance n PageType); [discriminate|].
    apply (Hbody (get_id n) n eq_refl Hrun).
Qed.

Lemma example_line_tree : NoDup (objs Example.line).
Proof. apply (bool_decide_unpack _). vm_compute. exact I. Qed.

Lemma repair_idempotent_witness :
  st_text (validate_consistency Rect.kernel "fix" "index1" true true
             (Element Example.line) Example.line_run.2).2
  = st_text Example.line_run.2
  /\ text_errors
       (st_report (validate_consistency Rect.kernel "fix" "index1" true true
                     (Element Example.line) Example.line_run.2).2)
     = text_errors (st_report Example.line_run.2).
Proof.
  apply (repair_idempotent Rect.kernel "index1" true true (Element Example.line)
           Example.line_state false Example.line_run.2).
  - exact example_line_tree.
  - vm_compute. reflexivity.
  - vm_compute. reflexivity.
Defined.

Lemma validate_consistency_only_canonical_text K strictness strategy cb cc node s :
  only_canonical_text strictness s
    (validate_consistency K strictness strategy cb cc node s).2.
Proof.
  destruct node as [p|n].
  - apply validate_body_only_canonical_text.
  - unfold validate_consistency, enter.
    destruct (isinstance n GlyphType); [apply only_canonical_text_refl|].
    destruct (isinstance n PageType); [apply only_canonical_text_refl|].
    apply validate_body_only_canonical_text.
Qed.

(** C9: whatever the tree, the configuration and the outcome, a run
    (of [validate_consistency], or of [PageValidator.validate] from any
    source of the page) leaves the texts as they are unless the
    strictness is ['fix']; under ['fix'] an object keeps its [TextEquiv]
    list or, having had a non-empty one, has its selected entry
    overwritten, all indices and all other entries being kept.  The
    elements, their links and their geometry are read, and nothing in the
    state holds them. *)
Theorem only_text_is_overwritten K strictness strategy cb cc s :
  (forall node,
      only_canonical_text strictness s
        (validate_consistency K strictness strategy cb cc node s).2)
  /\ (forall (OcrdFile : Type) (page_from_file : OcrdFile -> Result PcGtsType) parse
             filename ocrd_page ocrd_file,
        only_canonical_text strictness s
          (validate K page_from_file parse filename ocrd_page ocrd_file
                    strictness strategy cb cc s).2).
Proof.
  split; [intros node; apply validate_consistency_only_canonical_text|].
  intros OcrdFile page_from_file parse filename ocrd_page ocrd_file.
  unfold validate. unfold bind at 1.
  set (load := match ocrd_page, ocrd_file, filename with
               | Some p, _, _ => ret p
               | None, Some f, _ => lift (page_from_file f)
               | None, None, Some name =>
                   if PyStr.truthy name then lift (parse name) else raise _
               | None, None, None => raise _
               end).
  assert (Hload : (load s).2 = s).
  { unfold load, lift, ret, raise.
    destruct ocrd_page; [reflexivity|]. destruct ocrd_file; [reflexivity|].
    destruct filename as [name|]; [|reflexivity]. destruct (PyStr.truthy name); reflexivity. }
  destruct (load s) as [[page|e] s0]; cbn in Hload; subst s0;
    [|apply only_canonical_text_refl].
  destruct (negb (PyStr.contains "index1" strategy)); [apply only_canonical_text_refl|].
  destruct (negb (bool_decide _)); [apply only_canonical_text_refl|].
  unfold bind at 1. unfold new_report at 1. unfold bind at 1.
  set (s1 := mkState (st_text s) [] (st_within s)).
  pose proof (validate_consistency_only_canonical_text K strictness strategy cb cc
                (PcGts page) s1) as H.
  assert (Hs : only_canonical_text strictness s s1)
    by (apply only_canonical_text_same; reflexivity).
  destruct (validate_consistency K strictness strategy cb cc (PcGts page) s1)
    as [[b|e] s2]; cbn in H |- *; eapply only_canonical_text_trans; eassumption.
Qed.



(** The same holds of a baseline: the outline of the text line below
    fails the validity test and is reported, and its baseline is then
    tested for containment against it. *)
Example baseline_against_invalid_outline :
  Example.negative_line_run
  = (Ok false,
     mkState ∅
       [CoordinateValidityError "TextLine" "l3" (Example.box (-5) 0 50 10)]
       [([(0, 8); (40, 8)], Example.box (-5) 0 50 10)]).
Proof. vm_compute. reflexivity. Qed.

(** ** A page without border *)

Lemma for_children_without_polygon K cc visit getter tag all consistent s :
  for_children K cc visit getter tag None all consistent s
  = visit_children visit getter all consistent s.
Proof.
  revert consistent s. induction all as [|child rest IH]; intros consistent s; [reflexivity|].
  cbn [for_children visit_children].
  destruct (bool_decide (node_class child = getter_class getter)); [|apply IH].
  unfold bind at 1 3. destruct (visit child s) as [[r|e] s1]; [|reflexivity].
  unfold bind at 1. cbn [check_child ret]. apply IH.
Qed.

Lemma for_hierarchy_ext body1 body2 table :
  (forall entry consistent s, entry ∈ table -> body1 entry consistent s = body2 entry consistent s) ->
  forall consistent s,
    for_hierarchy body1 table consistent s = for_hierarchy body2 table consistent s.
Proof.
  induction table as [|entry rest IH]; intros H consistent s; [reflexivity|].
  cbn [for_hierarchy]. unfold bind. rewrite (H entry consistent s) by apply list_elem_of_here.
  destruct (body2 entry consistent s) as [[c|e] s1]; [|reflexivity].
  apply IH. intros e' c' s' He'. apply H, list_elem_of_further, He'.
Qed.





(** ** The polygon validity test *)

(** Once the polygon is built, the test is a boolean, and it passes on a
    valid, non-empty polygon without negative bound and of length at least
    4. *)
Lemma invalid_false K g :
  is_valid K g = true -> is_empty K g = false ->
  num_lt K (bounds K g).1.1.1 0 = false ->
  num_lt K (bounds K g).1.1.2 0 = false ->
  num_lt K (length K g) 4 = false ->
  invalid K g = false.
Proof.
  unfold invalid. destruct (bounds K g) as [[[minx miny] maxx] maxy]. cbn.
  intros -> -> -> -> ->. reflexivity.
Qed.

(** C2, at the failing input: nothing stands between the points of an
    element and the polygon constructor, so where the constructor raises
    (as the library's does on fewer than three points) the validator
    raises too, and reports nothing. *)
Theorem polygon_constructor_failure_escapes K strictness strategy cb cc n pts s :
  isinstance n GlyphType = false ->
  isinstance n PageType = false ->
  cc || cb = true ->
  get_Coords n = Some pts ->
  Polygon K pts = None ->
  validate_consistency K strictness strategy cb cc (Element n) s = (Raise ValueError, s).
Proof.
  intros Hg Hp Hflag Hc Hpoly. unfold validate_consistency, enter. rewrite Hg, Hp.
  rewrite validate_body_entries. unfold check_own. rewrite Hflag, Hp, Hc.
  unfold bind, points_of, ret, construct. rewrite Hpoly. reflexivity.
Qed.

Lemma polygon_constructor_failure_escapes_witness :
  Example.two_point_run = (Raise ValueError, Example.empty_state ∅).
Proof.
  apply (polygon_constructor_failure_escapes Rect.kernel "strict" "index1" true true
           Example.two_point_region [(0, 0); (10, 10)] (Example.empty_state ∅));
    reflexivity.
Defined.

(** ** The strategy test of the entry point *)

(** A strategy that is no substring of ["index1"] is refused before
    anything is done. *)
Lemma strategy_refused K (page_from_file : unit -> Result PcGtsType) parse
    filename page ocrd_file strictness strategy cb cc s :
  PyStr.contains "index1" strategy = false ->
  validate K page_from_file parse filename (Some page) ocrd_file strictness strategy cb cc s
  = (Raise (ConfigError ("Element selection strategy " ++ strategy ++ " not implemented")%string),
     s).
Proof.
  intros H. unfold validate, bind, ret. rewrite H. reflexivity.
Qed.

(** C3, at the failing input: the strategy "index" is not "index1", yet
    it is accepted, the page is validated and the report comes back with
    the error found in it; "bogus" is refused, and the state is then as
    before the call. *)
Theorem strategy_index_is_accepted :
  "index" <> "index1"
  /\ (Example.validate_page "index").1
     = Ok [ConsistencyError "TextRegion" "r1" "foo bar" foo_bar_joined]
  /\ Example.validate_page "bogus"
     = (Raise (ConfigError "Element selection strategy bogus not implemented"),
        Example.region_state "foo bar").
Proof.
  split; [discriminate|]. split; [vm_compute; reflexivity|].
  apply strategy_refused. reflexivity.
Qed.

(** ** Two runs side by side

    Two runs of the same computation, from states that hold the same
    texts (or from any two states, under ['fix']), end alike (both
    return, or both raise the same exception) and add the same errors to
    the report. *)

Section TwoRuns.

Context (K : Shapely) (strictness strategy : string) (cb cc : bool).

Lemma related_ret {A B} (V : A -> B -> Prop) a b : V a b -> related strictness V (ret a) (ret b).
Proof.
  intros H s t Hst. split; [exact Hst|]. split; [|exact H].
  exists []. cbn. rewrite !app_nil_r. split; reflexivity.
Qed.

Lemma related_raise {A B} (V : A -> B -> Prop) e : related strictness V (raise e) (raise e).
Proof.
  intros s t Hst. split; [exact Hst|]. split; [|reflexivity].
  exists []. cbn. rewrite !app_nil_r. split; reflexivity.
Qed.

Lemma related_bind {A B A' B'} (V : A -> B -> Prop) (W : A' -> B' -> Prop)
    (c : M A) (c' : M B) (k : A -> M A') (k' : B -> M B') :
  related strictness V c c' -> (forall a b, V a b -> related strictness W (k a) (k' b)) ->
  related strictness W (bind c k) (bind c' k').
Proof.
  intros Hc Hk s t Hst. unfold bind. specialize (Hc s t Hst).
  destruct (c s) as [[a|e] s1], (c' t) as [[b|e'] t1]; cbn in Hc;
    destruct Hc as [Ha [[es [E1 E2]] Hv]]; try contradiction.
  - specialize (Hk a b Hv s1 t1 Ha).
    destruct (k a s1) as [r s2], (k' b t1) as [r' t2]; cbn in Hk |- *.
    destruct Hk as [Ha2 [[es2 [E3 E4]] Hw]]. split; [exact Ha2|]. split; [|exact Hw].
    exists (es ++ es2). rewrite E3, E1, E4, E2, !app_assoc. split; reflexivity.
  - cbn. split; [exact Ha|]. split; [|exact Hv]. exists es. split; assumption.
Qed.

Lemma related_same {A} (c : M A) :
  (forall s, (c s).2 = s) -> (forall s t, (c s).1 = (c t).1) ->
  related strictness eq c c.
Proof.
  intros Hs Hv s t Hst. rewrite !Hs. split; [exact Hst|]. split.
  - exists []. rewrite !app_nil_r. split; reflexivity.
  - rewrite (Hv s t). destruct (c t).1; reflexivity.
Qed.

Lemma related_points_of c : related strictness eq (points_of c) (points_of c).
Proof. apply related_same; intros; destruct c; reflexivity. Qed.

Lemma related_construct {G} (ctor : points -> option G) p :
  related strictness eq (construct ctor p) (construct ctor p).
Proof. apply related_same; intros; unfold construct; destruct (ctor p); reflexivity. Qed.

Lemma related_add_error e : related strictness eq (add_error e) (add_error e).
Proof.
  intros s t Hst. split; [exact Hst|]. split; [|reflexivity].
  exists [e]. split; reflexivity.
Qed.

Lemma related_note_within inner outer :
  related strictness eq (note_within inner outer) (note_within inner outer).
Proof.
  intros s t Hst. split; [exact Hst|]. split; [|reflexivity].
  exists []. cbn. rewrite !app_nil_r. split; reflexivity.
Qed.

Lemma related_check_own node tag node_id :
  related strictness (fun a b => a.1 = b.1) (check_own K cb cc node tag node_id)
          (check_own K cb cc node tag node_id).
Proof.
  unfold check_own. destruct (cc || cb); [|apply related_ret; reflexivity].
  destruct (if isinstance node PageType then get_Border node else Some (get_Coords node))
    as [coords|]; [|apply related_ret; reflexivity].
  eapply related_bind; [apply related_points_of|]. intros pp ? <-.
  eapply related_bind; [apply related_construct|]. intros g ? <-.
  destruct (invalid K g); [|apply related_ret; reflexivity].
  eapply related_bind; [apply related_add_error|]. intros _ _ _.
  apply related_ret. reflexivity.
Qed.

Lemma related_check_child tag node_poly child c c' :
  related strictness any (check_child K cc tag node_poly child c)
          (check_child K cc tag node_poly child c').
Proof.
  unfold check_child. destruct node_poly as [[pp o]|]; [|apply related_ret; exact I].
  destruct (cc && truth K o); [|apply related_ret; exact I].
  eapply related_bind; [apply related_points_of|]. intros cp ? <-.
  eapply related_bind; [apply related_construct|]. intros g ? <-.
  destruct (invalid K g).
  - eapply related_bind; [apply related_add_error|]. intros _ _ _.
    apply related_ret. exact I.
  - eapply related_bind; [apply related_note_within|]. intros _ _ _.
    destruct (negb (within K g o)); [|apply related_ret; exact I].
    eapply related_bind; [apply related_add_error|]. intros _ _ _.
    apply related_ret. exact I.
Qed.

Lemma related_check_baseline_of node tag node_id node_poly c c' :
  related strictness any (check_baseline_of K cb node tag node_id node_poly c)
          (check_baseline_of K cb node tag node_id node_poly c').
Proof.
  unfold check_baseline_of. destruct (get_Baseline node) as [bp|];
    [|apply related_ret; exact I].
  destruct (isinstance node TextLineType && cb); [|apply related_ret; exact I].
  eapply related_bind; [apply related_construct|]. intros g ? <-.
  destruct (invalid K g).
  - eapply related_bind; [apply related_add_error|]. intros _ _ _.
    apply related_ret. exact I.
  - destruct node_poly as [[pp o]|]; [|apply related_raise].
    eapply related_bind; [apply related_note_within|]. intros _ _ _.
    destruct (negb (within K g o)); [|apply related_ret; exact I].
    eapply related_bind; [apply related_add_error|]. intros _ _ _.
    apply related_ret. exact I.
Qed.

Lemma related_check_text node tag node_id children cw c c' :
  related strictness any (check_text strictness strategy node tag node_id children cw c)
          (check_text strictness strategy node tag node_id children cw c').
Proof.
  intros s t Hst. rewrite !check_text_run.
  assert (Hnone : forall (a b : bool),
             agree strictness s t
             /\ (exists es, st_report s = st_report s ++ es
                            /\ st_report t = st_report t ++ es)
             /\ any a b).
  { intros a b. split; [exact Hst|]. split; [|exact I].
    exists []. rewrite !app_nil_r. split; reflexivity. }
  destruct cw as [d|]; [|apply Hnone].
  destruct (PyStr.eqb strictness "off"); [apply Hnone|].
  destruct (PyStr.eqb strictness "fix") eqn:Efix.
  - assert (Hfix : forall (a b : bool) s1 t1,
               st_report s1 = st_report s -> st_report t1 = st_report t ->
               agree strictness s1 t1
               /\ (exists es, st_report s1 = st_report s ++ es
                              /\ st_report t1 = st_report t ++ es)
               /\ any a b).
    { intros a b s1 t1 E1 E2. split; [left; exact Efix|]. split; [|exact I].
      exists []. rewrite !app_nil_r. split; assumption. }
    destruct (mismatch s node children d), (mismatch t node children d);
      cbn [fst snd]; apply Hfix; reflexivity.
  - destruct Hst as [Hst|Hst]; [congruence|].
    assert (Ht : text_of t node = text_of s node)
      by (unfold text_of, texts_of; rewrite Hst; reflexivity).
    assert (Hc : concatenated_of t children d = concatenated_of s children d).
    { unfold concatenated_of. f_equal. f_equal. apply map_ext. intros x.
      unfold text_of, texts_of. rewrite Hst. reflexivity. }
    assert (Hm : mismatch t node children d = mismatch s node children d)
      by (unfold mismatch; rewrite Ht, Hc; reflexivity).
    rewrite Hm, Ht, Hc. destruct (mismatch s node children d); [|apply Hnone].
    destruct (PyStr.eqb strictness "strict" || _); cbn [fst snd].
    + split; [right; exact Hst|]. split; [|exact I]. eexists [_]. split; reflexivity.
    + apply Hnone.
Qed.

Lemma related_for_children visit getter tag node_poly all :
  Forall (fun child => related strictness any (visit child) (visit child)) all ->
  forall c c',
    related strictness any (for_children K cc visit getter tag node_poly all c)
            (for_children K cc visit getter tag node_poly all c').
Proof.
  intros Hall. induction Hall as [|child rest Hc _ IH]; intros c c'.
  - apply related_ret. exact I.
  - cbn [for_children].
    destruct (bool_decide (node_class child = getter_class getter)); [|apply IH].
    eapply related_bind; [exact Hc|]. intros r r' _.
    eapply related_bind; [apply related_check_child|]. intros c1 c1' _. apply IH.
Qed.

Lemma related_for_hierarchy body table :
  (forall entry c c', related strictness any (body entry c) (body entry c')) ->
  forall c c', related strictness any (for_hierarchy body table c) (for_hierarchy body table c').
Proof.
  intros Hb. induction table as [|entry rest IH]; intros c c'.
  - apply related_ret. exact I.
  - cbn [for_hierarchy]. eapply related_bind; [apply Hb|]. intros c1 c1' _. apply IH.
Qed.

Lemma related_enter body node :
  (forall node_id, related strictness any (body node_id node) (body node_id node)) ->
  related strictness any (enter body (Element node)) (enter body (Element node)).
Proof.
  intros Hb. unfold enter.
  destruct (isinstance node GlyphType); [apply related_ret; exact I|].
  destruct (isinstance node PageType); [apply related_raise|]. apply Hb.
Qed.

Lemma related_validate_body node :
  forall node_id,
    related strictness any (validate_body K strictness strategy cb cc node_id node)
            (validate_body K strictness strategy cb cc node_id node).
Proof.
  induction node as [c a i co bo ba ch IH] using Node_tree_ind. intros node_id.
  rewrite validate_body_unfold. cbv zeta.
  eapply related_bind; [apply related_check_own|].
  intros [node_poly c0] [node_poly' c0'] Hp. cbn in Hp. subst node_poly'.
  apply related_for_hierarchy. intros [[class_ getter] cw] c1 c1'.
  destruct (negb _); [apply related_ret; exact I|].
  destruct getter as [getter|]; [|apply related_raise].
  eapply related_bind.
  - apply related_for_children. cbn [node_children].
    eapply Forall_impl; [exact IH|]. intros child Hchild.
    apply related_enter. exact Hchild.
  - intros c2 c2' _. eapply related_bind; [apply related_check_baseline_of|].
    intros c3 c3' _. apply related_check_text.
Qed.

End TwoRuns.

(** ** The accessor listed twice *)

Lemma entries_report_grows K strictness strategy cb cc node tag node_id node_poly
    table consistent s :
  poly_built K node_poly ->
  (forall entry, entry ∈ table -> entry ∈ _HIERARCHY) ->
  report_grows s
    (for_hierarchy (entry_body K strictness strategy cb cc node tag node_id node_poly)
                   table consistent s).2.
Proof.
  intros Hp Hsub.
  apply (triple_entries K strictness strategy cb cc report_grows (fun _ => True));
    try (intros; exact I); try exact Hp; try exact Hsub.
  - apply report_grows_refl.
  - apply report_grows_trans.
  - intros s0 e _ _. exists [e]. reflexivity.
  - intros. eexists [_]. reflexivity.
  - intros. exists []. cbn. rewrite app_nil_r. reflexivity.
  - intros. exists []. cbn. rewrite app_nil_r. reflexivity.
Qed.













(** On a page whose only graphic region reaches out of the border, the
    one containment error is reported twice. *)
Example graphic_region_reported_twice :
  st_report Example.graphic_run.2
  = [CoordinateConsistencyError "Page" "g1" (Example.box 0 0 100 100)
                                (Example.box 10 10 200 50);
     CoordinateConsistencyError "Page" "g1" (Example.box 0 0 100 100)
                                (Example.box 10 10 200 50)].
Proof. vm_compute. reflexivity. Qed.

(** On a page whose only graphic region has an invalid outline, the
    validation of the region adds one validity error; the run over the
    page returns with that error four times in the report: once from
    the region's own call and once from the loop of the page, in each of
    the two passes. *)
Example graphic_region_found_twice :
  let e := CoordinateValidityError "GraphicRegion" "g2" (Example.box (-5) 10 50 50) in
  st_report (validate_consistency Rect.kernel "strict" "index1" true true
               (Element Example.negative_graphic) (Example.empty_state ∅)).2 = [e]
  /\ Example.negative_graphic_run = (Ok false, mkState ∅ [e; e; e; e] []).
Proof. vm_compute. split; reflexivity. Qed.

(** * Further properties *)

(** ** The entry read and written *)

Lemma first_index1_spec l x rest :
  index1 l = x :: rest ->
  l !! first_index1 l = Some x
  /\ forall t, set_first_index1 t l
               = <[first_index1 l := {| index := index x; get_Unicode := t |}]> l.
Proof.
  unfold index1. revert x rest. induction l as [|y l IH]; intros x rest H; [discriminate|].
  cbn [List.filter first_index1 set_first_index1] in *.
  destruct (bool_decide (index y = Some 1)) eqn:E.
  - injection H as <- <-. split; [reflexivity|]. intros t. reflexivity.
  - destruct (IH x rest H) as [H1 H2]. split; [exact H1|].
    intros t. cbn. rewrite H2. reflexivity.
Qed.

(** X1: [get_text] reads and [set_text] writes the same entry of a
    non-empty [TextEquiv] list: the first one with index 1 when the list
    has more than one entry and such an entry exists, the first entry
    otherwise.  [set_text] replaces the text of that entry and leaves its
    index, and every other entry, as they are. *)
Theorem set_text_writes_what_get_text_reads (l : list TextEquivType) :
  l <> [] ->
  exists x,
    l !! selected l = Some x
    /\ select_text l = PyStr.strip (get_Unicode x)
    /\ forall t, store_text t l
                 = <[selected l := {| index := index x; get_Unicode := t |}]> l.
Proof.
  destruct l as [|f r]; [congruence|]. intros _.
  unfold selected, select_text, store_text.
  destruct (1 <? Z.of_nat (List.length (f :: r))); cbn [andb].
  - destruct (index1 (f :: r)) as [|x rest] eqn:E1.
    + exists f. rewrite bool_decide_eq_true_2 by reflexivity. cbn [negb].
      split; [reflexivity|]. split; reflexivity.
    + rewrite bool_decide_eq_false_2 by discriminate. cbn [negb].
      destruct (first_index1_spec _ _ _ E1) as [H1 H2].
      exists x. split; [exact H1|]. split; [reflexivity | exact H2].
  - exists f. split; [reflexivity|]. split; reflexivity.
Qed.

Lemma set_text_writes_what_get_text_reads_witness :
  exists x,
    [ {| index := Some 2; get_Unicode := "a" |};
      {| index := Some 1; get_Unicode := " b " |} ]
      !! selected [ {| index := Some 2; get_Unicode := "a" |};
                    {| index := Some 1; get_Unicode := " b " |} ] = Some x
    /\ select_text [ {| index := Some 2; get_Unicode := "a" |};
                     {| index := Some 1; get_Unicode := " b " |} ]
       = PyStr.strip (get_Unicode x)
    /\ forall t, store_text t [ {| index := Some 2; get_Unicode := "a" |};
                                {| index := Some 1; get_Unicode := " b " |} ]
                 = <[selected [ {| index := Some 2; get_Unicode := "a" |};
                                {| index := Some 1; get_Unicode := " b " |} ]
                     := {| index := index x; get_Unicode := t |}]>
                     [ {| index := Some 2; get_Unicode := "a" |};
                       {| index := Some 1; get_Unicode := " b " |} ].
Proof.
  apply (set_text_writes_what_get_text_reads
           [ {| index := Some 2; get_Unicode := "a" |};
             {| index := Some 1; get_Unicode := " b " |} ]).
  discriminate.
Defined.

(** X2: what [set_text] stores is what [get_text] then returns: the
    text, stripped.  This holds whatever [TextEquiv]s the element had,
    none included. *)
Theorem get_text_after_set_text node text strategy strategy' s :
  bind (set_text node text strategy) (fun _ => get_text node strategy') s
  = (Ok (PyStr.strip text), with_text s node text).
Proof.
  unfold bind. rewrite set_text_run, get_text_run. f_equal. f_equal.
  unfold text_of, texts_of, with_text. cbn [st_text].
  rewrite lookup_insert_eq, default_Some, select_store_text. apply strip_strip.
Qed.

Lemma store_text_twice t1 t2 l : store_text t2 (store_text t1 l) = store_text t2 l.
Proof.
  destruct l as [|x l]; [reflexivity|]. apply store_text_again. discriminate.
Qed.

(** X3: of two [set_text] on the same element, the second one wins: the
    state is the one the second alone would leave, no entry is added by
    the first and then kept. *)
Theorem set_text_last_wins node t1 t2 strategy strategy' s :
  bind (set_text node t1 strategy) (fun _ => set_text node t2 strategy') s
  = set_text node t2 strategy' s.
Proof.
  unfold bind. rewrite !set_text_run. f_equal.
  unfold with_text, texts_of. cbn [st_text st_report st_within].
  rewrite lookup_insert_eq, default_Some, store_text_twice, insert_insert_eq.
  reflexivity.
Qed.

(** ** Stripped results *)

Lemma rstrip_ends s : ends_with_space (PyStr.rstrip s) = false.
Proof.
  induction s as [|c s IH]; [reflexivity|]. cbn [PyStr.rstrip].
  destruct (PyStr.rstrip s) as [|c' r] eqn:E.
  - destruct (PyStr.isspace c) eqn:Ec; [reflexivity|]. cbn. exact Ec.
  - exact IH.
Qed.

Lemma strip_clean t :
  lstripped (PyStr.strip t) /\ ends_with_space (PyStr.strip t) = false.
Proof.
  unfold PyStr.strip. split; [apply rstrip_lstripped, lstrip_lstripped | apply rstrip_ends].
Qed.

Lemma select_text_clean l :
  lstripped (select_text l) /\ ends_with_space (select_text l) = false.
Proof.
  unfold select_text. destruct l as [|f r]; [split; [exact I|reflexivity]|].
  destruct (1 <? _); [|apply strip_clean].
  destruct (index1 (f :: r)); apply strip_clean.
Qed.

(** X4: what [get_text] and [concatenate] return neither begins nor
    ends with white space (stripping it again leaves it unchanged), and
    they leave the state as it is. *)
Theorem texts_are_stripped node nodes concatenate_with strategy s v s' :
  get_text node strategy s = (Ok v, s')
  \/ concatenate nodes concatenate_with strategy s = (Ok v, s') ->
  s' = s /\ lstripped v /\ ends_with_space v = false /\ PyStr.strip v = v.
Proof.
  intros [H|H].
  - rewrite get_text_run in H. injection H as <- <-. split; [reflexivity|].
    destruct (select_text_clean (texts_of s node)) as [H1 H2].
    split; [exact H1|]. split; [exact H2|].
    unfold text_of, select_text. destruct (texts_of s node) as [|f r]; [reflexivity|].
    destruct (1 <? _); [|apply strip_strip].
    destruct (index1 (f :: r)); apply strip_strip.
  - rewrite concatenate_run in H. injection H as <- <-. split; [reflexivity|].
    unfold concatenated_of. destruct (strip_clean (PyStr.join concatenate_with
                                                     (map (text_of s) nodes))) as [H1 H2].
    split; [exact H1|]. split; [exact H2 | apply strip_strip].
Qed.

Lemma texts_are_stripped_witness :
  Example.line_state = Example.line_state
  /\ lstripped "fo o" /\ ends_with_space "fo o" = false /\ PyStr.strip "fo o" = "fo o".
Proof.
  apply (texts_are_stripped Example.line [Example.word1; Example.word2] " " "index1"
           Example.line_state "fo o" Example.line_state).
  left. vm_compute. reflexivity.
Defined.

(** ** Comparing without white space *)

Lemma remove_whitespace_app a b :
  PyStr.remove_whitespace (a ++ b)%string
  = (PyStr.remove_whitespace a ++ PyStr.remove_whitespace b)%string.
Proof.
  induction a as [|c a IH]; [reflexivity|].
  change (String c a ++ b)%string with (String c (a ++ b)%string).
  cbn [PyStr.remove_whitespace]. rewrite IH.
  destruct (PyStr.isspace c); reflexivity.
Qed.

Lemma remove_whitespace_all_space d :
  all_space d = true -> PyStr.remove_whitespace d = "".
Proof.
  induction d as [|c d IH]; [reflexivity|]. cbn. intros H.
  apply andb_prop in H as [-> H]. apply IH, H.
Qed.

Lemma remove_whitespace_lstrip s :
  PyStr.remove_whitespace (PyStr.lstrip s) = PyStr.remove_whitespace s.
Proof.
  induction s as [|c s IH]; [reflexivity|]. cbn [PyStr.lstrip].
  destruct (PyStr.isspace c) eqn:E; [|reflexivity]. cbn. rewrite E. exact IH.
Qed.

Lemma remove_whitespace_rstrip s :
  PyStr.remove_whitespace (PyStr.rstrip s) = PyStr.remove_whitespace s.
Proof.
  induction s as [|c s IH]; [reflexivity|]. cbn [PyStr.rstrip PyStr.remove_whitespace].
  destruct (PyStr.rstrip s) as [|c' r] eqn:E.
  - cbn in IH. rewrite <- IH. destruct (PyStr.isspace c) eqn:Ec; [reflexivity|].
    cbn. rewrite Ec. reflexivity.
  - cbn [PyStr.remove_whitespace] in IH |- *. rewrite IH. reflexivity.
Qed.

Lemma remove_whitespace_strip s :
  PyStr.remove_whitespace (PyStr.strip s) = PyStr.remove_whitespace s.
Proof.
  unfold PyStr.strip. rewrite remove_whitespace_rstrip. apply remove_whitespace_lstrip.
Qed.

Lemma remove_whitespace_join d tokens :
  all_space d = true ->
  PyStr.remove_whitespace (PyStr.join d tokens)
  = PyStr.remove_whitespace (PyStr.join "" tokens).
Proof.
  intros Hd. induction tokens as [|t ts IH]; [reflexivity|].
  destruct ts as [|t' ts]; [reflexivity|].
  change (PyStr.join d (t :: t' :: ts)) with (t ++ d ++ PyStr.join d (t' :: ts))%string.
  change (PyStr.join "" (t :: t' :: ts)) with (t ++ "" ++ PyStr.join "" (t' :: ts))%string.
  rewrite !remove_whitespace_app, IH, (remove_whitespace_all_space d Hd). reflexivity.
Qed.

(** X5: [compare_without_whitespace] is an equivalence on strings, and
    stripping either argument does not change its answer. *)
Theorem compare_without_whitespace_equivalence :
  (forall a, compare_without_whitespace a a = true)
  /\ (forall a b, compare_without_whitespace a b = compare_without_whitespace b a)
  /\ (forall a b c, compare_without_whitespace a b = true ->
                    compare_without_whitespace b c = true ->
                    compare_without_whitespace a c = true)
  /\ (forall a b, compare_without_whitespace (PyStr.strip a) (PyStr.strip b)
                  = compare_without_whitespace a b).
Proof.
  unfold compare_without_whitespace, PyStr.eqb. repeat split.
  - intros a. apply bool_decide_eq_true. reflexivity.
  - intros a b. apply bool_decide_ext. split; congruence.
  - intros a b c H1 H2. apply bool_decide_eq_true in H1, H2.
    apply bool_decide_eq_true. congruence.
  - intros a b. rewrite !remove_whitespace_strip. reflexivity.
Qed.

(** X6: which white space joins the tokens makes no difference to
    [compare_without_whitespace]: the texts of the same children joined by
    one white-space delimiter or by another, stripped or not, compare
    equal.  So under ['lax'] an element whose text is that of its children
    joined by spaces instead of line feeds is not reported. *)
Theorem compare_without_whitespace_delimiter d1 d2 tokens :
  all_space d1 = true -> all_space d2 = true ->
  compare_without_whitespace (PyStr.strip (PyStr.join d1 tokens)) (PyStr.join d2 tokens)
  = true.
Proof.
  intros H1 H2. unfold compare_without_whitespace, PyStr.eqb. apply bool_decide_eq_true.
  rewrite remove_whitespace_strip, (remove_whitespace_join d1 tokens H1),
    (remove_whitespace_join d2 tokens H2). reflexivity.
Qed.

Lemma compare_without_whitespace_delimiter_witness :
  compare_without_whitespace (PyStr.strip (PyStr.join newline ["foo"; "bar"]))
                             (PyStr.join "  " ["foo"; "bar"]) = true.
Proof.
  apply (compare_without_whitespace_delimiter newline "  " ["foo"; "bar"]); reflexivity.
Defined.

(** ** Texts that are not compared *)

(** X7: the text check compares only when both the element and its
    children have a text.  When the selected text of the element is empty
    (it has no [TextEquiv], or a blank one), or the joined text of the
    children is empty (no children, or none with text), the check changes
    nothing, reports nothing and leaves the result as it was, under every
    strictness; in particular ['fix'] does not fill in a missing text. *)
Theorem text_check_needs_both_texts strictness strategy node tag node_id children d
    consistent s :
  text_of s node = "" \/ concatenated_of s children d = "" ->
  check_text strictness strategy node tag node_id children (Some d) consistent s
  = (Ok consistent, s).
Proof.
  intros H. rewrite check_text_run.
  destruct (PyStr.eqb strictness "off"); [reflexivity|].
  assert (Hm : mismatch s node children d = false).
  { unfold mismatch. destruct H as [-> | ->]; cbn [PyStr.truthy andb];
      [rewrite andb_false_r|]; reflexivity. }
  rewrite Hm. reflexivity.
Qed.

Lemma text_check_needs_both_texts_witness :
  check_text "fix" "index1" Example.region "TextRegion" "r1"
             [Example.line_foo; Example.line_bar] (Some newline) true
             (Example.empty_state (<[2%nat := Example.text "foo"]> ∅))
  = (Ok true, Example.empty_state (<[2%nat := Example.text "foo"]> ∅)).
Proof.
  apply (text_check_needs_both_texts "fix" "index1" Example.region "TextRegion" "r1"
           [Example.line_foo; Example.line_bar] newline true
           (Example.empty_state (<[2%nat := Example.text "foo"]> ∅))).
  left. vm_compute. reflexivity.
Defined.

(** ** What the strictness and the flags switch off *)

(** X8: under strictness ['off'] a run changes no text and adds no text
    consistency error to the report, whatever the tree, the flags and
    the outcome; under ['fix'] it adds no text consistency error
    either, so that the report then holds coordinate errors only. *)
Theorem off_and_fix_report_no_text_error K strategy cb cc node s :
  quiet s (validate_consistency K "off" strategy cb cc node s).2
  /\ same_text_errors s (validate_consistency K "fix" strategy cb cc node s).2.
Proof.
  split.
  - apply (triple_validate_consistency K "off" strategy cb cc quiet (fun _ => True)).
    + apply quiet_refl.
    + apply quiet_trans.
    + intros s0 e _. apply quiet_geometry_error.
    + intros s0 n tag nid cl g d _ _ _ _ H. vm_compute in H. discriminate.
    + intros. apply quiet_within.
    + intros s0 n cl g d _ _ _ H. vm_compute in H. discriminate.
    + intros; exact I.
    + destruct node; exact I.
  - apply (triple_validate_consistency K "fix" strategy cb cc same_text_errors
                                       (fun _ => True)); unfold same_text_errors.
    + reflexivity.
    + intros a b c H1 H2. congruence.
    + intros s0 e _ He. cbn. rewrite text_errors_app. cbn. rewrite He. apply app_nil_r.
    + intros s0 n tag nid cl g d _ _ _ H. vm_compute in H. discriminate.
    + reflexivity.
    + reflexivity.
    + intros; exact I.
    + destruct node; exact I.
Qed.

Lemma only_text_errors_added_refl s : only_text_errors_added s s.
Proof.
  split; [reflexivity|]. exists []. rewrite app_nil_r. split; [reflexivity|constructor].
Qed.

Lemma only_text_errors_added_trans a b c :
  only_text_errors_added a b -> only_text_errors_added b c -> only_text_errors_added a c.
Proof.
  intros [W1 [e1 [H1 F1]]] [W2 [e2 [H2 F2]]]. split; [congruence|].
  exists (e1 ++ e2). split; [rewrite H2, H1, app_assoc; reflexivity|].
  apply Forall_app. split; assumption.
Qed.

Lemma validate_body_only_text_errors_added K strictness strategy node_id n s :
  only_text_errors_added s (validate_body K strictness strategy false false node_id n s).2.
Proof.
  apply (triple_validate_body K strictness strategy false false only_text_errors_added
                              (fun _ => True)).
  - apply only_text_errors_added_refl.
  - apply only_text_errors_added_trans.
  - intros s0 e H. discriminate H.
  - intros. split; [reflexivity|]. eexists [_]. split; [reflexivity|].
    constructor; [reflexivity|constructor].
  - intros s0 inner outer [[o [g [_ [_ [H _]]]]]|[o [g [_ [H _]]]]]; discriminate H.
  - intros. split; [reflexivity|]. exists []. cbn. rewrite app_nil_r.
    split; [reflexivity|constructor].
  - intros; exact I.
  - exact I.
Qed.

(** X10: with [check_coords] and [check_baseline] both off a run
    evaluates no containment, and every error it adds to the report is a
    text consistency error, whatever the tree, the strictness and the
    outcome. *)
Theorem without_geometry_checks K strictness strategy node s :
  only_text_errors_added s
    (validate_consistency K strictness strategy false false node s).2.
Proof.
  unfold validate_consistency, enter. destruct node as [p|n].
  - apply validate_body_only_text_errors_added.
  - destruct (isinstance n GlyphType); [apply only_text_errors_added_refl|].
    destruct (isinstance n PageType); [apply only_text_errors_added_refl|].
    apply validate_body_only_text_errors_added.
Qed.

(** ** The returned boolean and the state *)

Lemma verdict_ret strictness consistent s : verdict strictness consistent s (Ok consistent, s).
Proof. destruct consistent; judge. Qed.

Lemma judged_trans strictness b s r s1 out :
  judged strictness b s r s1 -> verdict strictness r s1 out -> verdict strictness b s out.
Proof.
  destruct out as [[r2|e] s2]; [|intros; exact I]. unfold verdict, judged.
  destruct r, r2.
  - intros [-> [T R]] [_ [T' R']]. rewrite T', R'. auto.
  - intros [-> [T R]] [L [F|S]]; [discriminate F|]. rewrite <- R.
    split; [exact L | right; exact S].
  - intros _ [F _]. discriminate F.
  - intros [L [->|S]] [L' _]; (split; [lia|]); [left; reflexivity|].
    right. intros E. specialize (S E). lia.
Qed.

Lemma verdict_bind strictness b s (c : M bool) (k : bool -> M bool) :
  verdict strictness b s (c s) ->
  (forall b1 s1, verdict strictness b1 s1 (k b1 s1)) ->
  verdict strictness b s (bind c k s).
Proof.
  intros Hc Hk. unfold bind. destruct (c s) as [[r|e] s1]; [|exact I].
  eapply judged_trans; [exact Hc | apply Hk].
Qed.

Lemma verdict_and strictness b s (c : M bool) (k : bool -> M bool) :
  verdict strictness true s (c s) ->
  (forall b1 s1, verdict strictness b1 s1 (k b1 s1)) ->
  verdict strictness b s (bind c (fun r => k (r && b)) s).
Proof.
  intros Hc Hk. unfold bind. destruct (c s) as [[r|e] s1]; [|exact I].
  apply (judged_trans strictness b s (r && b) s1); [|apply Hk].
  unfold verdict, judged in *. destruct r; cbn [andb].
  - destruct Hc as [_ [T R]]. destruct b.
    + auto.
    + rewrite R. split; [lia | left; reflexivity].
  - destruct Hc as [L [F|S]]; [discriminate F|]. split; [exact L | right; exact S].
Qed.

Lemma check_own_judged K strictness cb cc node tag node_id s node_poly consistent s0 :
  check_own K cb cc node tag node_id s = (Ok (node_poly, consistent), s0) ->
  judged strictness true s consistent s0.
Proof.
  unfold check_own, bind, points_of, construct, add_error, ret, raise. intros H.
  repeat case_match; simplify_eq; judge.
Qed.

Lemma verdict_check_child K strictness cc tag node_poly child consistent s :
  verdict strictness consistent s (check_child K cc tag node_poly child consistent s).
Proof.
  unfold check_child, bind, points_of, construct, add_error, note_within, ret, raise.
  repeat case_match; simplify_eq; try exact I; try apply verdict_ret;
    destruct consistent; judge.
Qed.

Lemma verdict_check_baseline_of K strictness cb node tag node_id node_poly consistent s :
  verdict strictness consistent s
          (check_baseline_of K cb node tag node_id node_poly consistent s).
Proof.
  unfold check_baseline_of, bind, construct, add_error, note_within, ret, raise.
  repeat case_match; simplify_eq; try exact I; try apply verdict_ret;
    destruct consistent; judge.
Qed.

Lemma verdict_check_text strictness strategy node tag node_id children cw consistent s :
  verdict strictness consistent s
          (check_text strictness strategy node tag node_id children cw consistent s).
Proof.
  rewrite check_text_run. destruct cw as [d|]; [|apply verdict_ret].
  destruct (PyStr.eqb strictness "off"); [apply verdict_ret|].
  destruct (mismatch s node children d); [|apply verdict_ret].
  unfold verdict, judged. destruct (PyStr.eqb strictness "fix") eqn:Ef.
  - cbn [with_text st_report]. split; [lia|]. right. intros ->. vm_compute in Ef.
    discriminate Ef.
  - destruct (PyStr.eqb strictness "strict"
              || negb (compare_without_whitespace _ _)) eqn:Es.
    + cbn [with_error st_report]. rewrite length_app. cbn [List.length].
      split; [lia | right; intros; lia].
    + split; [lia|]. right. intros ->. vm_compute in Es. discriminate Es.
Qed.

Lemma verdict_for_children K strictness cc visit getter tag node_poly all :
  Forall (fun child => forall s, verdict strictness true s (visit child s)) all ->
  forall consistent s,
    verdict strictness consistent s
            (for_children K cc visit getter tag node_poly all consistent s).
Proof.
  intros Hall. induction Hall as [|child rest Hc _ IH]; intros consistent s.
  - apply verdict_ret.
  - cbn [for_children].
    destruct (bool_decide (node_class child = getter_class getter)); [|apply IH].
    apply (verdict_and strictness consistent s (visit child)
             (fun b => bind (check_child K cc tag node_poly child b)
                            (for_children K cc visit getter tag node_poly rest)));
      [apply Hc|].
    intros b1 s1. apply verdict_bind; [apply verdict_check_child|]. intros. apply IH.
Qed.

Lemma verdict_for_hierarchy strictness body table :
  (forall entry b s, verdict strictness b s (body entry b s)) ->
  forall consistent s,
    verdict strictness consistent s (for_hierarchy body table consistent s).
Proof.
  intros Hb. induction table as [|entry rest IH]; intros consistent s.
  - apply verdict_ret.
  - cbn [for_hierarchy]. apply verdict_bind; [apply Hb|]. intros. apply IH.
Qed.

Lemma validate_body_verdict K strictness strategy cb cc n :
  forall node_id s,
    verdict strictness true s (validate_body K strictness strategy cb cc node_id n s).
Proof.
  induction n as [cl a i co bo ba ch IH] using Node_tree_ind. intros node_id s.
  rewrite validate_body_entries.
  destruct (check_own _ _ _ _ _ _ s) as [[[node_poly c]|e] s0] eqn:Eown; [|exact I].
  apply (judged_trans strictness true s c s0);
    [eapply check_own_judged; exact Eown|].
  apply verdict_for_hierarchy. intros [[class_ getter] cw] b s1. unfold entry_body.
  destruct (negb _); [apply verdict_ret|]. destruct getter as [getter|]; [|exact I].
  apply verdict_bind.
  - apply verdict_for_children. cbn [node_children].
    eapply Forall_impl; [exact IH|]. intros child Hchild s2. unfold enter.
    destruct (isinstance child GlyphType); [apply verdict_ret|].
    destruct (isinstance child PageType); [exact I|]. apply Hchild.
  - intros b1 s2. apply verdict_bind; [apply verdict_check_baseline_of|].
    intros. apply verdict_check_text.
Qed.

Lemma validate_consistency_verdict K strictness strategy cb cc node s :
  verdict strictness true s (validate_consistency K strictness strategy cb cc node s).
Proof.
  unfold validate_consistency, enter. destruct node as [p|n].
  - apply validate_body_verdict.
  - destruct (isinstance n GlyphType); [apply verdict_ret|].
    destruct (isinstance n PageType); [exact I|]. apply validate_body_verdict.
Qed.

(** X11: a call that returns [True] has added nothing to the report and
    has changed no text, under every strictness and with any flags:
    whatever is reported or repaired anywhere below makes the result
    [False]. *)
Theorem consistent_means_untouched K strictness strategy cb cc node s s' :
  validate_consistency K strictness strategy cb cc node s = (Ok true, s') ->
  st_report s' = st_report s /\ st_text s' = st_text s.
Proof.
  intros E. pose proof (validate_consistency_verdict K strictness strategy cb cc node s) as H.
  rewrite E in H. destruct H as [_ [T R]]. split; assumption.
Qed.

Lemma consistent_means_untouched_witness :
  st_report (Example.region_run "fix" foo_bar_joined).2
  = st_report (Example.region_state foo_bar_joined)
  /\ st_text (Example.region_run "fix" foo_bar_joined).2
     = st_text (Example.region_state foo_bar_joined).
Proof.
  apply (consistent_means_untouched Rect.kernel "fix" "index1" true true
           (Element Example.region)).
  vm_compute. reflexivity.
Defined.

(** X12: under ['strict'] the boolean and the report agree: a call
    returns [True] exactly when it has added no error to the report. *)
Theorem strict_result_matches_report K strategy cb cc node s consistent s' :
  validate_consistency K "strict" strategy cb cc node s = (Ok consistent, s') ->
  consistent = true <-> st_report s' = st_report s.
Proof.
  intros E. pose proof (validate_consistency_verdict K "strict" strategy cb cc node s) as H.
  rewrite E in H. unfold verdict, judged in H. destruct consistent.
  - destruct H as [_ [_ R]]. split; auto.
  - destruct H as [_ [F|S]]; [discriminate F|]. specialize (S eq_refl).
    split; [discriminate|]. intros R. rewrite R in S. lia.
Qed.

Lemma strict_result_matches_report_witness :
  false = true
  <-> st_report (Example.region_run "strict" "foo bar").2
      = st_report (Example.region_state "foo bar").
Proof.
  apply (strict_result_matches_report Rect.kernel "index1" true true
           (Element Example.region) (Example.region_state "foo bar")).
  vm_compute. reflexivity.
Defined.

(** ** The arguments [strategy] and [strictness] *)

Lemma for_children_ext K cc visit1 visit2 getter tag node_poly all :
  Forall (fun child => forall s, visit1 child s = visit2 child s) all ->
  forall consistent s,
    for_children K cc visit1 getter tag node_poly all consistent s
    = for_children K cc visit2 getter tag node_poly all consistent s.
Proof.
  intros Hall. induction Hall as [|child rest Hc _ IH]; intros consistent s; [reflexivity|].
  cbn [for_children].
  destruct (bool_decide (node_class child = getter_class getter)); [|apply IH].
  unfold bind at 1 3. rewrite Hc. destruct (visit2 child s) as [[r|e] s1]; [|reflexivity].
  unfold bind. destruct (check_child _ _ _ _ _ _ s1) as [[c|e] s2]; [apply IH|reflexivity].
Qed.

Lemma check_text_names st st' sg sg' node tag node_id children cw consistent s :
  PyStr.eqb st "off" = PyStr.eqb st' "off" ->
  PyStr.eqb st "fix" = PyStr.eqb st' "fix" ->
  PyStr.eqb st "strict" = PyStr.eqb st' "strict" ->
  check_text st sg node tag node_id children cw consistent s
  = check_text st' sg' node tag node_id children cw consistent s.
Proof.
  intros Eo Ef Es. rewrite !check_text_run, Eo, Ef, Es. reflexivity.
Qed.

Lemma validate_body_names K st st' sg sg' cb cc n :
  PyStr.eqb st "off" = PyStr.eqb st' "off" ->
  PyStr.eqb st "fix" = PyStr.eqb st' "fix" ->
  PyStr.eqb st "strict" = PyStr.eqb st' "strict" ->
  forall node_id s,
    validate_body K st sg cb cc node_id n s = validate_body K st' sg' cb cc node_id n s.
Proof.
  intros Eo Ef Es. induction n as [cl a i co bo ba ch IH] using Node_tree_ind.
  intros node_id s. rewrite !validate_body_entries.
  destruct (check_own _ _ _ _ _ _ s) as [[[node_poly c]|e] s0]; [|reflexivity].
  apply for_hierarchy_ext. intros [[class_ getter] cw] b s1 _. unfold entry_body.
  destruct (negb _); [reflexivity|]. destruct getter as [getter|]; [|reflexivity].
  unfold bind at 1 3.
  rewrite (for_children_ext K cc _
             (fun child => enter (validate_body K st' sg' cb cc) (Element child))).
  - destruct (for_children _ _ _ _ _ _ _ _ s1) as [[b1|e] s2]; [|reflexivity].
    unfold bind. destruct (check_baseline_of _ _ _ _ _ _ _ s2) as [[b2|e] s3];
      [|reflexivity].
    apply check_text_names; assumption.
  - cbn [node_children]. eapply Forall_impl; [exact IH|]. intros child Hchild s2.
    unfold enter. destruct (isinstance child GlyphType); [reflexivity|].
    destruct (isinstance child PageType); [reflexivity|]. apply Hchild.
Qed.

Lemma validate_consistency_names K st st' sg sg' cb cc node s :
  PyStr.eqb st "off" = PyStr.eqb st' "off" ->
  PyStr.eqb st "fix" = PyStr.eqb st' "fix" ->
  PyStr.eqb st "strict" = PyStr.eqb st' "strict" ->
  validate_consistency K st sg cb cc node s = validate_consistency K st' sg' cb cc node s.
Proof.
  intros Eo Ef Es. unfold validate_consistency, enter. destruct node as [p|n].
  - apply validate_body_names; assumption.
  - destruct (isinstance n GlyphType); [reflexivity|].
    destruct (isinstance n PageType); [reflexivity|].
    apply validate_body_names; assumption.
Qed.

(** X13: the [strategy] argument is never read: two calls of
    [validate_consistency] that differ in it only have the same outcome
    and leave the same state; and [PageValidator.validate], for every
    strategy it accepts, does what it does for ['index1']. *)
Theorem strategy_is_never_read K {OcrdFile} (page_from_file : OcrdFile -> Result PcGtsType)
    parse filename ocrd_page ocrd_file strictness strategy cb cc s :
  (forall node strategy',
      validate_consistency K strictness strategy cb cc node s
      = validate_consistency K strictness strategy' cb cc node s)
  /\ (validate K page_from_file parse filename ocrd_page ocrd_file strictness strategy
               cb cc s
      = validate K page_from_file parse filename ocrd_page ocrd_file strictness "index1"
                 cb cc s
      \/ (validate K page_from_file parse filename ocrd_page ocrd_file strictness strategy
                   cb cc s).1
         = Raise (ConfigError ("Element selection strategy " ++ strategy
                               ++ " not implemented")%string)).
Proof.
  split; [intros node strategy'; apply validate_consistency_names; reflexivity|].
  unfold validate. destruct (PyStr.contains "index1" strategy) eqn:E; cbn [negb].
  - left. change (PyStr.contains "index1" "index1") with true. cbn [negb].
    unfold bind at 1 4.
    match goal with |- context [?sel s] => destruct (sel s) as [[page|e] s0] end;
      [|reflexivity].
    destruct (negb _); [reflexivity|]. unfold bind.
    destruct (new_report s0) as [[u|e] s1]; [|reflexivity].
    rewrite (validate_consistency_names K strictness strictness strategy "index1")
      by reflexivity.
    reflexivity.
  - unfold bind.
    match goal with |- context [?sel s] => destruct (sel s) as [[page|e] s0] eqn:Esel end.
    + right. reflexivity.
    + left. reflexivity.
Qed.

(** X14: [validate_consistency] itself refuses no strictness: any value
    other than ['off'], ['fix'] and ['strict'] acts as ['lax'] does. *)
Theorem unknown_strictness_is_lax K strictness strategy cb cc node s :
  strictness ∉ ["off"; "fix"; "strict"] ->
  validate_consistency K strictness strategy cb cc node s
  = validate_consistency K "lax" strategy cb cc node s.
Proof.
  intros H. rewrite !not_elem_of_cons in H. destruct H as [Ho [Hf [Hs _]]].
  apply validate_consistency_names; unfold PyStr.eqb;
    rewrite bool_decide_eq_false_2 by assumption; reflexivity.
Qed.

Lemma unknown_strictness_is_lax_witness :
  validate_consistency Rect.kernel "bogus" "index1" true true (Element Example.region)
                       (Example.region_state "foo bar")
  = validate_consistency Rect.kernel "lax" "index1" true true (Element Example.region)
                         (Example.region_state "foo bar").
Proof.
  apply (unknown_strictness_is_lax Rect.kernel "bogus" "index1" true true
           (Element Example.region) (Example.region_state "foo bar")).
  apply (bool_decide_unpack _). vm_compute. exact I.
Defined.

(** ** Validating again *)

(** X15: [PageValidator.validate] is repeatable: called again with the
    same arguments on what the first call has left, it returns the same
    report, or raises the same exception, under every strictness; under
    ['fix'] the texts repaired in between take nothing from the
    report. *)
Theorem validate_is_repeatable K {OcrdFile} (page_from_file : OcrdFile -> Result PcGtsType)
    parse filename ocrd_page ocrd_file strictness strategy cb cc s :
  (validate K page_from_file parse filename ocrd_page ocrd_file strictness strategy cb cc
            (validate K page_from_file parse filename ocrd_page ocrd_file strictness
                      strategy cb cc s).2).1
  = (validate K page_from_file parse filename ocrd_page ocrd_file strictness strategy
              cb cc s).1.
Proof.
  assert (Hmain : forall page t,
    let main := fun page : PcGtsType =>
      if negb (PyStr.contains "index1" strategy) then
        raise (ConfigError ("Element selection strategy " ++ strategy
                            ++ " not implemented")%string)
      else if negb (bool_decide (strictness ∈ ["strict"; "lax"; "fix"; "off"])) then
        raise (ConfigError ("Strictness level " ++ strictness ++ " not implemented")%string)
      else
        bind new_report (fun _ =>
        bind (validate_consistency K strictness strategy cb cc (PcGts page))
             (fun _ => the_report)) in
    (main page (main page t).2).1 = (main page t).1).
  { intros page t main. unfold main.
    destruct (negb (PyStr.contains "index1" strategy)); [reflexivity|].
    destruct (negb (bool_decide _)); [reflexivity|].
    unfold bind, new_report, the_report, validate_consistency, enter.
    set (t0 := mkState (st_text t) [] (st_within t)).
    pose proof (validate_body_only_canonical_text K strictness strategy cb cc
                  (get_pcGtsId page) (get_Page page) t0) as [Htext _].
    destruct (validate_body K strictness strategy cb cc (get_pcGtsId page)
                            (get_Page page) t0) as [[b|e] t1] eqn:E1; cbn [fst snd] in *.
    - set (t2 := mkState (st_text t1) [] (st_within t1)).
      assert (Hagree : agree strictness t0 t2).
      { destruct (PyStr.eqb strictness "fix") eqn:F; [left; exact F|]. right.
        symmetry. apply Htext. intros ->. vm_compute in F. discriminate F. }
      pose proof (related_validate_body K strictness strategy cb cc (get_Page page)
                    (get_pcGtsId page) t0 t2 Hagree) as [_ [[es [R1 R2]] V]].
      rewrite E1 in R1, V. cbn [fst snd] in R1, V.
      destruct (validate_body K strictness strategy cb cc (get_pcGtsId page)
                              (get_Page page) t2) as [[b'|e'] t3];
        cbn [fst snd] in *; [|contradiction].
      cbn in R1, R2. congruence.
    - set (t2 := mkState (st_text t1) [] (st_within t1)).
      assert (Hagree : agree strictness t0 t2).
      { destruct (PyStr.eqb strictness "fix") eqn:F; [left; exact F|]. right.
        symmetry. apply Htext. intros ->. vm_compute in F. discriminate F. }
      pose proof (related_validate_body K strictness strategy cb cc (get_Page page)
                    (get_pcGtsId page) t0 t2 Hagree) as [_ [_ V]].
      rewrite E1 in V. cbn [fst snd] in V.
      destruct (validate_body K strictness strategy cb cc (get_pcGtsId page)
                              (get_Page page) t2) as [[b'|e'] t3];
        cbn [fst snd] in *; [contradiction|]. congruence. }
  cbv zeta in Hmain. unfold validate.
  destruct ocrd_page as [page|]; [|destruct ocrd_file as [f|]; [|destruct filename as [n|]]].
  - unfold bind at 1 2 3. cbn [ret]. apply Hmain.
  - unfold bind at 1 2 3, lift. destruct (page_from_file f) as [page|e]; [|reflexivity].
    apply Hmain.
  - destruct (PyStr.truthy n); [|reflexivity].
    unfold bind at 1 2 3, lift. destruct (parse n) as [page|e]; [|reflexivity].
    apply Hmain.
  - reflexivity.
Qed.

(** ** An invalid outline of a child *)

(** X16: an invalid outline of a child is reported twice.  With
    [check_coords] set, a child other than a glyph whose polygon fails
    the validity check gets a [CoordinateValidityError] in its own call,
    first of all, and, once that call has returned, the same error again
    from the loop of its parent (whose polygon is non-empty), last of
    all; the loop then carries [False]. *)
Theorem invalid_child_is_reported_twice K strictness strategy cb getter tag
    parent_points outer child pts g consistent s r :
  let visit := fun c => enter (validate_body K strictness strategy cb true) (Element c) in
  let e := CoordinateValidityError (tagname (node_class child)) (get_id child) pts in
  node_class child = getter_class getter ->
  isinstance child GlyphType = false ->
  truth K outer = true ->
  get_Coords child = Some pts ->
  Polygon K pts = Some g ->
  invalid K g = true ->
  (visit child s).1 = Ok r ->
  (exists mid, st_report (visit child s).2 = st_report s ++ e :: mid)
  /\ for_children K true visit getter tag (Some (parent_points, outer)) [child]
                  consistent s
     = (Ok false, with_error (visit child s).2 e).
Proof.
  intros visit e Hcls Hg Ht Hco Hpoly Hinv Hret.
  assert (Hp : isinstance child PageType = false).
  { destruct (isinstance child PageType) eqn:E; [|reflexivity].
    apply isinstance_page in E. rewrite Hcls in E.
    destruct (getter_class_not_page _ E). }
  split.
  - unfold visit, enter. rewrite Hg, Hp, validate_body_entries.
    assert (Eown : check_own K cb true child (tagname (node_class child)) (get_id child) s
                   = (Ok (Some (pts, g), false), with_error s e)).
    { unfold check_own. cbn [orb]. rewrite Hp, Hco.
      unfold bind, points_of, construct, ret. rewrite Hpoly. cbv beta iota.
      rewrite Hinv. reflexivity. }
    rewrite Eown.
    destruct (entries_report_grows K strictness strategy cb true child
                (tagname (node_class child)) (get_id child) (Some (pts, g))
                _HIERARCHY false (with_error s e) Hpoly (fun _ H => H)) as [mid Hmid].
    exists mid. rewrite Hmid. cbn [with_error st_report]. rewrite <- app_assoc.
    reflexivity.
  - cbn [for_children]. rewrite bool_decide_eq_true_2 by exact Hcls.
    unfold bind at 1. destruct (visit child s) as [[r'|x] s1]; [|discriminate Hret].
    cbn [snd]. unfold check_child. cbn [andb]. rewrite Ht, Hco.
    unfold bind, points_of, construct, ret. rewrite Hpoly. cbv beta iota.
      rewrite Hinv. reflexivity.
Qed.

Lemma invalid_child_is_reported_twice_witness :
  let visit := fun c =>
    enter (validate_body Rect.kernel "strict" "index1" true true) (Element c) in
  let e := CoordinateValidityError "TextRegion" "r1" (Example.box (-5) (-5) 50 20) in
  let s := Example.region_state foo_bar_joined in
  (exists mid, st_report (visit Example.negative_region s).2 = st_report s ++ e :: mid)
  /\ for_children Rect.kernel true visit get_TextRegion "Page"
                  (Some (Example.box 0 0 100 100, Rect.Box 0 0 100 100))
                  [Example.negative_region] true s
     = (Ok false, with_error (visit Example.negative_region s).2 e).
Proof.
  apply (invalid_child_is_reported_twice Rect.kernel "strict" "index1" true get_TextRegion
           "Page" (Example.box 0 0 100 100) (Rect.Box 0 0 100 100)
           Example.negative_region (Example.box (-5) (-5) 50 20)
           (Rect.Box (-5) (-5) 50 20) true (Example.region_state foo_bar_joined) false);
    vm_compute; reflexivity.
Defined.

(** ** Without the geometry checks *)

Lemma visit_children_ext visit1 visit2 getter all :
  Forall (fun child => forall s, visit1 child s = visit2 child s) all ->
  forall consistent s,
    visit_children visit1 getter all consistent s
    = visit_children visit2 getter all consistent s.
Proof.
  intros Hall. induction Hall as [|child rest Hc _ IH]; intros consistent s; [reflexivity|].
  cbn [visit_children].
  destruct (bool_decide (node_class child = getter_class getter)); [|apply IH].
  unfold bind. rewrite Hc. destruct (visit2 child s) as [[r|e] s1]; [apply IH|reflexivity].
Qed.

Lemma check_baseline_of_off K node tag node_id node_poly consistent s :
  check_baseline_of K false node tag node_id node_poly consistent s = (Ok consistent, s).
Proof.
  unfold check_baseline_of. destruct (get_Baseline node); [|reflexivity].
  rewrite andb_false_r. reflexivity.
Qed.

Lemma validate_body_any_geometry K K' strictness strategy n :
  forall node_id s,
    validate_body K strictness strategy false false node_id n s
    = validate_body K' strictness strategy false false node_id n s.
Proof.
  induction n as [cl a i co bo ba ch IH] using Node_tree_ind. intros node_id s.
  rewrite !validate_body_entries. unfold check_own. cbn [orb ret].
  apply for_hierarchy_ext. intros [[class_ getter] cw] b s1 _. unfold entry_body.
  destruct (negb _); [reflexivity|]. destruct getter as [getter|]; [|reflexivity].
  unfold bind at 1 3. rewrite !for_children_without_polygon.
  rewrite (visit_children_ext _
             (fun child => enter (validate_body K' strictness strategy false false)
                                 (Element child))).
  - destruct (visit_children _ _ _ _ s1) as [[b1|e] s2]; [|reflexivity].
    unfold bind. rewrite !check_baseline_of_off. reflexivity.
  - cbn [node_children]. eapply Forall_impl; [exact IH|]. intros child Hchild s2.
    unfold enter. destruct (isinstance child GlyphType); [reflexivity|].
    destruct (isinstance child PageType); [reflexivity|]. apply Hchild.
Qed.

(** X18: with [check_coords] and [check_baseline] both off the geometry
    library is not consulted: the outcome of a run, the report and the
    texts it leaves are the same for any two implementations of the
    geometry operations. *)
Theorem geometry_is_not_consulted K K' strictness strategy node s :
  validate_consistency K strictness strategy false false node s
  = validate_consistency K' strictness strategy false false node s.
Proof.
  unfold validate_consistency, enter. destruct node as [p|n].
  - apply validate_body_any_geometry.
  - destruct (isinstance n GlyphType); [reflexivity|].
    destruct (isinstance n PageType); [reflexivity|]. apply validate_body_any_geometry.
Qed.
